(** * A shallow embedding of the tile-paging engine of bigimageviewer

    The Python sources modelled here are
    - [src/bigimageviewer/bigimage.py]   (the [BigImage] base class),
    - [src/bigimageviewer/dzimage.py]    (the DeepZoom adapter [DZImage]),
    - [src/bigimageviewer/liimage.py]    (the large_image adapter [LIImage]),
    - [src/bigimageviewer/loadedimage.py] (the engine [LoadedImage]).

    Python exceptions become the [Err] branch of a small error monad,
    numpy arrays become a record holding their shape and a pixel function,
    and the mutable fields of [LoadedImage] become a state record that
    every method takes and returns. *)

From Stdlib Require Import ZArith List String Bool Lia.
Import ListNotations.
Open Scope Z_scope.

(** ** Exceptions and the error monad *)

(** The exceptions the modelled code can raise. *)
Inductive exn :=
| FileFormatError
| ZoomError
| KeyError
| ValueError
| TypeError
| AttributeError
| UnboundLocalError
| NotImplementedException
| OSError.

Scheme Equality for exn.

Inductive res (A : Type) : Type :=
| Ok (a : A)
| Err (e : exn).
Arguments Ok {A} a.
Arguments Err {A} e.

Definition bind {A B} (m : res A) (k : A -> res B) : res B :=
  match m with
  | Ok a => k a
  | Err e => Err e
  end.

Notation "x <- m ;; k" := (bind m (fun x => k))
  (at level 61, m at next level, right associativity).
Notation "' p <- m ;; k" := (bind m (fun x => match x with p => k end))
  (at level 61, p pattern, m at next level, right associativity).

(** Reading an attribute that holds [None] in arithmetic or subscripting. *)
Definition not_none {A} (o : option A) : res A :=
  match o with
  | Some a => Ok a
  | None => Err TypeError
  end.

(** [for x in l: acc = f(acc, x)] where [f] may raise. *)
Fixpoint foldM {A B} (f : A -> B -> res A) (l : list B) (acc : A) : res A :=
  match l with
  | [] => Ok acc
  | x :: r => bind (f acc x) (fun a => foldM f r a)
  end.

(** Python's [range(a, b)]. *)
Definition zrange (a b : Z) : list Z :=
  map (fun k => a + Z.of_nat k) (seq 0 (Z.to_nat (b - a))).

(** [int(math.ceil(a / b))] for a positive divisor, computed exactly. *)
Definition py_ceil_div (a b : Z) : Z := - ((- a) / b).

(** ** numpy arrays *)

(** The element type of an array: [to_qimage] only tests for [np.uint8]. *)
Inductive DType :=
| UInt8
| OtherDType (name : string).

(** A [height x width x channel] array (every array of the program has
    three axes: [load_tile] unpacks [img.shape] into three values, and the
    canvas is allocated with the tile's three-axis shape); [px i j] is the
    pixel at row [i], column [j] (all channels of one pixel packed in one
    number). *)
Record ndarray := mk_ndarray {
  rows : Z;
  cols : Z;
  chans : Z;
  dtype : DType;
  px : Z -> Z -> Z
}.

(** [np.zeros((h, w, channel), dt)]. *)
Definition zeros (h w c : Z) (dt : DType) : ndarray :=
  mk_ndarray h w c dt (fun _ _ => 0).

(** The bound of a slice [a:b] over an axis of length [len] after Python's
    normalisation (negative bounds count from the end, bounds are clipped). *)
Definition norm_index (i len : Z) : Z :=
  if i <? 0 then Z.max 0 (i + len) else Z.min i len.

Definition slice_len (a b len : Z) : Z :=
  Z.max 0 (norm_index b len - norm_index a len).

(** One axis of [dst[a:b] = src[e:f]]: the source index written at the
    destination index [i], or [None] when [i] is outside the target slice.
    A source axis of length 1 is broadcast. *)
Definition axis_hit (len a b slen e f i : Z) : option Z :=
  let a' := norm_index a len in
  let nr := slice_len a b len in
  let e' := norm_index e slen in
  let sr := slice_len e f slen in
  if (a' <=? i) && (i <? a' + nr)
  then Some (if sr =? 1 then e' else e' + (i - a'))
  else None.

(** Numpy's broadcasting rule for one axis. *)
Definition bcast (src_n dst_n : Z) : bool := (src_n =? dst_n) || (src_n =? 1).

(** The new value of pixel [(i, j)] after [dst[a:b, c:d] = src[e:f, g:h]]. *)
Definition setitem2_at (dst : ndarray) (a b c d : Z) (src : ndarray)
    (e f g h : Z) (i j : Z) : option Z :=
  match axis_hit (rows dst) a b (rows src) e f i,
        axis_hit (cols dst) c d (cols src) g h j with
  | Some si, Some sj => Some (px src si sj)
  | _, _ => None
  end.

(** [dst[a:b, c:d] = src[e:f, g:h]]; the right-hand side is read before
    anything is written, as numpy does for overlapping views. Shapes that do
    not broadcast raise [ValueError]. *)
Definition setitem2 (dst : ndarray) (a b c d : Z) (src : ndarray)
    (e f g h : Z) : res ndarray :=
  if bcast (slice_len e f (rows src)) (slice_len a b (rows dst))
     && bcast (slice_len g h (cols src)) (slice_len c d (cols dst))
     && bcast (chans src) (chans dst)
  then Ok (mk_ndarray (rows dst) (cols dst) (chans dst) (dtype dst)
             (fun i j => match setitem2_at dst a b c d src e f g h i j with
                         | Some v => v
                         | None => px dst i j
                         end))
  else Err ValueError.

(** [src[a:b, c:d]] (a view). *)
Definition getitem2 (src : ndarray) (a b c d : Z) : ndarray :=
  let a' := norm_index a (rows src) in
  let c' := norm_index c (cols src) in
  mk_ndarray (slice_len a b (rows src)) (slice_len c d (cols src)) (chans src) (dtype src)
    (fun i j => px src (a' + i) (c' + j)).

(** ** Python dicts keyed by integers *)

Definition dict := list (Z * Z).

Fixpoint dict_get (k : Z) (d : dict) : option Z :=
  match d with
  | [] => None
  | (k', v) :: r => if k =? k' then Some v else dict_get k r
  end.

(** [d[k] = v]. *)
Definition dict_set (k v : Z) (d : dict) : dict := (k, v) :: d.

(** ** The [BigImage] interface (bigimage.py)

    The methods [LoadedImage] calls on its image. [min_zoom] is [None] for a
    DeepZoom image without numbered level directories. *)
Record BigImage := mk_BigImage {
  min_zoom : option Z;
  max_zoom : Z;
  zooms : list Z;
  tile_width : Z;
  tile_height : Z;
  image_width_for_zoom : Z -> res Z;
  image_height_for_zoom : Z -> res Z;
  tile_start_x : Z -> bool -> Z;
  tile_start_y : Z -> bool -> Z;
  tile_end_x_plus_one : Z -> Z -> res Z;
  tile_end_y_plus_one : Z -> Z -> res Z;
  left_overlap : Z -> Z;
  right_overlap : Z -> Z -> res Z;
  top_overlap : Z -> Z;
  bottom_overlap : Z -> Z -> res Z;
  load_tile : Z -> Z -> Z -> res ndarray;
  band_format : Z
}.

Definition BGR : Z := 0.
Definition RGB : Z := 1.

(** [max(1, ceil(size / tile))], the body of [num_tiles_across]. *)
Definition tiles_for (size tile : Z) : Z :=
  let tiles := py_ceil_div size tile in
  if tiles <? 1 then 1 else tiles.

Definition num_tiles_across (im : BigImage) (zoom : Z) : res Z :=
  w <- image_width_for_zoom im zoom ;; Ok (tiles_for w (tile_width im)).

Definition num_tiles_down (im : BigImage) (zoom : Z) : res Z :=
  h <- image_height_for_zoom im zoom ;; Ok (tiles_for h (tile_height im)).

(** [int(x / tile_width + 0.0001)]: the float expression evaluated exactly
    over the rationals, then truncated toward zero. *)
Definition x_to_tile (im : BigImage) (x : Z) : Z :=
  Z.quot (10000 * x + tile_width im) (10000 * tile_width im).

Definition y_to_tile (im : BigImage) (y : Z) : Z :=
  Z.quot (10000 * y + tile_height im) (10000 * tile_height im).

Definition tile_width_at_zoom (im : BigImage) (tile zoom : Z) : res Z :=
  e <- tile_end_x_plus_one im tile zoom ;; Ok (e - tile_start_x im tile false).

Definition tile_height_at_zoom (im : BigImage) (tile zoom : Z) : res Z :=
  e <- tile_end_y_plus_one im tile zoom ;; Ok (e - tile_start_y im tile false).

(** [fit_to_viewport]: the loop over [self.zooms] with its local variables
    [z], [width], [height], which stay unbound until first assigned. A
    [ZoomError] skips the rest of the iteration; the fallback returns the
    variables as the loop left them. *)
Fixpoint fit_scan (im : BigImage) (vw vh : Z) (zs : list Z)
    (z width height : option Z) : res (Z * Z * Z) :=
  match zs with
  | [] =>
      match z, width, height with
      | Some z, Some w, Some h => Ok (z, w, h)
      | _, _, _ => Err UnboundLocalError
      end
  | z' :: rest =>
      match image_width_for_zoom im z' with
      | Err ZoomError => fit_scan im vw vh rest (Some z') width height
      | Err e => Err e
      | Ok w =>
          match image_height_for_zoom im z' with
          | Err ZoomError => fit_scan im vw vh rest (Some z') (Some w) height
          | Err e => Err e
          | Ok h =>
              if (w <=? vw) && (h <? vh) then Ok (z', w, h)
              else fit_scan im vw vh rest (Some z') (Some w) (Some h)
          end
      end
  end.

Definition fit_to_viewport (im : BigImage) (vw vh : Z) : res (Z * Z * Z) :=
  fit_scan im vw vh (zooms im) None None None.

(** ** The DeepZoom adapter (dzimage.py) *)

(** The attributes [DZImage.open] leaves on the object. *)
Record DZMeta := mk_DZMeta {
  dz_width : Z;
  dz_height : Z;
  dz_tile_width : Z;     (** also [_tile_height] *)
  dz_overlap : Z;
  dz_format : string;
  dz_zoom_to_width : dict;
  dz_zoom_to_height : dict;
  dz_zooms : list Z;
  dz_max_zoom : Z;
  dz_min_zoom : option Z
}.

Section DZImage.
Variable m : DZMeta.
(** [cv2.imread] of the tile file for (tilex, tiley, zoom); [None] when
    the file cannot be read. *)
Variable imread : Z -> Z -> Z -> option ndarray.

Definition dz_image_width_for_zoom (zoom : Z) : res Z :=
  match dict_get zoom (dz_zoom_to_width m) with
  | Some w => Ok w
  | None => Err ZoomError
  end.

Definition dz_image_height_for_zoom (zoom : Z) : res Z :=
  match dict_get zoom (dz_zoom_to_height m) with
  | Some h => Ok h
  | None => Err ZoomError
  end.

Definition dz_tile_start (tile : Z) (clip : bool) : Z :=
  let coord := tile * dz_tile_width m in
  if clip && (coord - dz_overlap m <? 0) then 0
  else
    let overlap := if tile =? 0 then 0 else dz_overlap m in
    coord - overlap.

Definition dz_left_overlap (tile : Z) : Z :=
  if tile =? 0 then 0 else dz_overlap m.

Definition dz_top_overlap (tile : Z) : Z :=
  if tile =? 0 then 0 else dz_overlap m.

(** [right_overlap]; [self.num_tiles_across(zoom)] is unfolded. *)
Definition dz_right_overlap (tile zoom : Z) : res Z :=
  w <- dz_image_width_for_zoom zoom ;;
  let last_tile := tiles_for w (dz_tile_width m) - 1 in
  Ok (if tile =? last_tile then 0 else dz_overlap m).

Definition dz_bottom_overlap (tile zoom : Z) : res Z :=
  h <- dz_image_height_for_zoom zoom ;;
  let last_tile := tiles_for h (dz_tile_width m) - 1 in
  Ok (if tile =? last_tile then 0 else dz_overlap m).

(** [tile_end_x_plus_one]; [self._zoom_to_width[zoom]] raises [KeyError]. *)
Definition dz_tile_end_x_plus_one (tile zoom : Z) : res Z :=
  let tile_start := dz_tile_start tile false in
  r <- dz_right_overlap tile zoom ;;
  let tile_end_plus_one := tile_start + dz_tile_width m + dz_left_overlap tile + r in
  match dict_get zoom (dz_zoom_to_width m) with
  | Some w => Ok (if tile_end_plus_one >? w then w else tile_end_plus_one)
  | None => Err KeyError
  end.

Definition dz_tile_end_y_plus_one (tile zoom : Z) : res Z :=
  let tile_start := dz_tile_start tile false in
  b <- dz_bottom_overlap tile zoom ;;
  let tile_end_plus_one := tile_start + dz_tile_width m + dz_top_overlap tile + b in
  match dict_get zoom (dz_zoom_to_height m) with
  | Some h => Ok (if tile_end_plus_one >? h then h else tile_end_plus_one)
  | None => Err KeyError
  end.

(** [load_tile]: the expected size comes from [tile_width_at_zoom] and
    [tile_height_at_zoom] of the base class; [img.shape] on the [None] that
    [cv2.imread] returns raises [AttributeError]. *)
Definition dz_load_tile (tilex tiley zoom : Z) : res ndarray :=
  ex <- dz_tile_end_x_plus_one tilex zoom ;;
  let expected_width := ex - dz_tile_start tilex false in
  ey <- dz_tile_end_y_plus_one tiley zoom ;;
  let expected_height := ey - dz_tile_start tiley false in
  match imread tilex tiley zoom with
  | None => Err AttributeError
  | Some img =>
      if negb (cols img =? expected_width) || negb (rows img =? expected_height)
      then Err FileFormatError
      else Ok img
  end.

Definition dz_image : BigImage :=
  {| min_zoom := dz_min_zoom m;
     max_zoom := dz_max_zoom m;
     zooms := dz_zooms m;
     tile_width := dz_tile_width m;
     tile_height := dz_tile_width m;
     image_width_for_zoom := dz_image_width_for_zoom;
     image_height_for_zoom := dz_image_height_for_zoom;
     tile_start_x := dz_tile_start;
     tile_start_y := dz_tile_start;
     tile_end_x_plus_one := dz_tile_end_x_plus_one;
     tile_end_y_plus_one := dz_tile_end_y_plus_one;
     left_overlap := dz_left_overlap;
     right_overlap := dz_right_overlap;
     top_overlap := dz_top_overlap;
     bottom_overlap := dz_bottom_overlap;
     load_tile := dz_load_tile;
     band_format := RGB |}.

End DZImage.

(** ** The large_image adapter (liimage.py) *)

(** The numeric attributes [LIImage.open] leaves on the object. *)
Record LIGeom := mk_LIGeom {
  li_tile_width : Z;
  li_tile_height : Z;
  li_zoom_to_width : dict;
  li_zoom_to_height : dict;
  li_max_zoom : Z;
  li_zooms : list Z
}.

Section LIImage.
Variable g : LIGeom.
(** [self._source.getTile(tilex, tiley, zoom, numpyAllowed=True)]. *)
Variable getTile : Z -> Z -> Z -> ndarray.

Definition li_image_width_for_zoom (zoom : Z) : res Z :=
  match dict_get zoom (li_zoom_to_width g) with
  | Some w => Ok w
  | None => Err ZoomError
  end.

Definition li_image_height_for_zoom (zoom : Z) : res Z :=
  match dict_get zoom (li_zoom_to_height g) with
  | Some h => Ok h
  | None => Err ZoomError
  end.

Definition li_tile_start_x (tile : Z) (clip : bool) : Z :=
  let coord := tile * li_tile_width g in
  if clip && (coord <? 0) then 0 else coord.

Definition li_tile_start_y (tile : Z) (clip : bool) : Z :=
  let coord := tile * li_tile_height g in
  if clip && (coord <? 0) then 0 else coord.

Definition li_tile_end_x_plus_one (tile zoom : Z) : res Z :=
  let tile_end_plus_one := li_tile_start_x tile false + li_tile_width g in
  match dict_get zoom (li_zoom_to_width g) with
  | Some w => Ok (if tile_end_plus_one >? w then w else tile_end_plus_one)
  | None => Err KeyError
  end.

Definition li_tile_end_y_plus_one (tile zoom : Z) : res Z :=
  let tile_end_plus_one := li_tile_start_y tile false + li_tile_height g in
  match dict_get zoom (li_zoom_to_height g) with
  | Some h => Ok (if tile_end_plus_one >? h then h else tile_end_plus_one)
  | None => Err KeyError
  end.

(** [load_tile]: no size check; a full-size tile is cut down to the
    expected size when the expected tile is smaller. *)
Definition li_load_tile (tilex tiley zoom : Z) : res ndarray :=
  ex <- li_tile_end_x_plus_one tilex zoom ;;
  let expected_width := ex - li_tile_start_x tilex false in
  ey <- li_tile_end_y_plus_one tiley zoom ;;
  let expected_height := ey - li_tile_start_y tiley false in
  let img := getTile tilex tiley zoom in
  let height := rows img in
  let width := cols img in
  if (width =? li_tile_width g) && (expected_width <? li_tile_width g)
     || (height =? li_tile_height g) && (expected_height <? li_tile_height g)
  then Ok (getitem2 img 0 expected_height 0 expected_width)
  else Ok img.

Definition li_image : BigImage :=
  {| min_zoom := Some 0;
     max_zoom := li_max_zoom g;
     zooms := li_zooms g;
     tile_width := li_tile_width g;
     tile_height := li_tile_height g;
     image_width_for_zoom := li_image_width_for_zoom;
     image_height_for_zoom := li_image_height_for_zoom;
     tile_start_x := li_tile_start_x;
     tile_start_y := li_tile_start_y;
     tile_end_x_plus_one := li_tile_end_x_plus_one;
     tile_end_y_plus_one := li_tile_end_y_plus_one;
     left_overlap := fun _ => 0;
     right_overlap := fun _ _ => Ok 0;
     top_overlap := fun _ => 0;
     bottom_overlap := fun _ _ => Ok 0;
     load_tile := li_load_tile;
     band_format := BGR |}.

End LIImage.

(** ** The engine (loadedimage.py) *)

(** The attributes of a [LoadedImage]. Those the constructor sets to [None]
    and that [load_image] writes before reading them hold a number here;
    [_zoomed_image_width]/[_height] and [_pixels], which are tested against
    [None], are options. *)
Record LState := {
  viewport_x : Z;
  viewport_y : Z;
  viewport_width : Z;
  viewport_height : Z;
  extra_tiles : Z;
  zoom : Z;
  zoomed_image_width : option Z;
  zoomed_image_height : option Z;
  canvas_x : Z;
  canvas_y : Z;
  canvas_width : Z;
  canvas_height : Z;
  tile_xstart : Z;
  tile_ystart : Z;
  tile_xend : Z;
  tile_yend : Z;
  tiles_across_in_canvas : Z;
  tiles_down_in_canvas : Z;
  viewport_x_on_fullimage : Z;
  viewport_y_on_fullimage : Z;
  pixels : option ndarray
}.

(** The state after [LoadedImage(image, extra_tiles)] followed by the setters
    the viewer component calls before its first [load_image]:
    [viewport_on_fullimage = (0, 0)], [zoom = z], [viewport_size = (w, h)]. *)
Definition init_state (extra z w h : Z) : LState :=
  {| viewport_x := 0; viewport_y := 0;
     viewport_width := w; viewport_height := h;
     extra_tiles := extra; zoom := z;
     zoomed_image_width := None; zoomed_image_height := None;
     canvas_x := 0; canvas_y := 0; canvas_width := 0; canvas_height := 0;
     tile_xstart := 0; tile_ystart := 0; tile_xend := 0; tile_yend := 0;
     tiles_across_in_canvas := 0; tiles_down_in_canvas := 0;
     viewport_x_on_fullimage := 0; viewport_y_on_fullimage := 0;
     pixels := None |}.

(** What [to_qimage] returns: [QImage()] or a [QImage] over the canvas. *)
Inductive QFormat :=
| Format_BGR888 | Format_RGB888 | Format_BGR32 | Format_ARGB32.

Inductive QImage :=
| QImageNull
| QImageOf (buf : ndarray) (fmt : QFormat).

Record QRect := mk_QRect { qr_x : Z; qr_y : Z; qr_w : Z; qr_h : Z }.

Section LoadedImage.
Variable image : BigImage.

(** The body of the inner loop of [_load_tiles] for one [tilex]; the
    accumulator is [(self._pixels, first)]. *)
Definition tile_step (zoom txs cw ch : Z) (init_matrix skip_loaded : bool)
    (otxs otys otxe otye : Z) (tiles_across tiley top_ov bottom_ov ypos : Z)
    (acc : option ndarray * bool) (tilex : Z) : res (option ndarray * bool) :=
  let '(pix, first) := acc in
  if (tilex <? 0) || (tilex >=? tiles_across) then Ok acc
  else if skip_loaded && (tiley >=? otys) && (tiley <? otye)
          && (tilex >=? otxs) && (tilex <? otxe) then Ok acc
  else
    let left_ov := left_overlap image tilex in
    right_ov <- right_overlap image tilex zoom ;;
    let xpos := tile_width image * (tilex - txs) in
    img <- load_tile image tilex tiley zoom ;;
    let height := rows img in
    let width := cols img in
    let '(pix, first) :=
      if init_matrix && first then (Some (zeros ch cw (chans img) (dtype img)), false)
      else (pix, first) in
    let startx_on_tile := left_ov in
    let starty_on_tile := top_ov in
    let endx_on_tile := width - right_ov in
    let endy_on_tile := height - bottom_ov in
    let endx_on_canvas := xpos + endx_on_tile - left_ov in
    let endy_on_canvas := ypos + endy_on_tile - top_ov in
    p <- not_none pix ;;
    p' <- setitem2 p ypos endy_on_canvas xpos endx_on_canvas
            img starty_on_tile endy_on_tile startx_on_tile endx_on_tile ;;
    Ok (Some p', first).

(** The body of the outer loop of [_load_tiles] for one [tiley]. *)
Definition row_step (zoom txs tys txe cw ch : Z) (init_matrix skip_loaded : bool)
    (otxs otys otxe otye : Z) (tiles_across tiles_down : Z)
    (acc : option ndarray * bool) (tiley : Z) : res (option ndarray * bool) :=
  if (tiley <? 0) || (tiley >=? tiles_down) then Ok acc
  else
    let top_ov := top_overlap image tiley in
    bottom_ov <- bottom_overlap image tiley zoom ;;
    let ypos := tile_height image * (tiley - tys) in
    foldM (tile_step zoom txs cw ch init_matrix skip_loaded otxs otys otxe otye
             tiles_across tiley top_ov bottom_ov ypos)
          (zrange txs txe) acc.

(** [_load_tiles]: reads the zoom, the tile window and the canvas size of
    the object (passed here as arguments) and returns the new [_pixels]. *)
Definition load_tiles (zoom txs tys txe tye cw ch : Z) (pix : option ndarray)
    (init_matrix skip_loaded : bool) (otxs otys otxe otye : Z)
    : res (option ndarray) :=
  tiles_across <- num_tiles_across image zoom ;;
  tiles_down <- num_tiles_down image zoom ;;
  '(pix', _) <- foldM (row_step zoom txs tys txe cw ch init_matrix skip_loaded
                         otxs otys otxe otye tiles_across tiles_down)
                      (zrange tys tye) (pix, true) ;;
  Ok pix'.

(** [load_image(centerx, centery)]; [center] is [None] for the call
    without arguments. *)
Definition load_image (st : LState) (center : option (Z * Z)) : res LState :=
  let vw := viewport_width st in
  let vh := viewport_height st in
  if (vw =? 0) || (vh =? 0) then Ok st
  else
    '(zw, zh) <-
      (if negb (zoom st =? -1) then
         w <- image_width_for_zoom image (zoom st) ;;
         h <- image_height_for_zoom image (zoom st) ;;
         Ok (Some w, Some h)
       else Ok (zoomed_image_width st, zoomed_image_height st)) ;;
    let '(vfx, vfy) :=
      match center with
      | Some (cx, cy) => (cx - Z.quot vw 2, cy - Z.quot vh 2)
      | None => (viewport_x_on_fullimage st, viewport_y_on_fullimage st)
      end in
    let vfx := match zw with
               | Some w => if vfx + vw >=? w then w - vw else vfx
               | None => vfx end in
    let vfy := match zh with
               | Some h => if vfy + vh >=? h then h - vh else vfy
               | None => vfy end in
    let vfx := if vfx <? 0 then 0 else vfx in
    let vfy := if vfy <? 0 then 0 else vfy in
    '(z, zw, zh) <-
      (if zoom st =? -1 then
         '(z, w, h) <- fit_to_viewport image vw vh ;;
         Ok (z, Some w, Some h)
       else Ok (zoom st, zw, zh)) ;;
    let nac := py_ceil_div vw (tile_width image) + extra_tiles st * 2 in
    let ndc := py_ceil_div vh (tile_height image) + extra_tiles st * 2 in
    _ <- num_tiles_across image z ;;
    _ <- num_tiles_down image z ;;
    let txs := x_to_tile image vfx - extra_tiles st in
    let tys := y_to_tile image vfy - extra_tiles st in
    let txe := txs + nac in
    let tye := tys + ndc in
    let cw := nac * tile_width image in
    let ch := ndc * tile_height image in
    pix <- load_tiles z txs tys txe tye cw ch (pixels st) true false 0 0 0 0 ;;
    Ok {| viewport_x := vfx - tile_start_x image txs false;
          viewport_y := vfy - tile_start_y image tys false;
          viewport_width := vw; viewport_height := vh;
          extra_tiles := extra_tiles st; zoom := z;
          zoomed_image_width := zw; zoomed_image_height := zh;
          canvas_x := tile_start_x image txs false;
          canvas_y := tile_start_y image tys false;
          canvas_width := cw; canvas_height := ch;
          tile_xstart := txs; tile_ystart := tys;
          tile_xend := txe; tile_yend := tye;
          tiles_across_in_canvas := nac; tiles_down_in_canvas := ndc;
          viewport_x_on_fullimage := vfx; viewport_y_on_fullimage := vfy;
          pixels := pix |}.

(** [scroll_to(top_left_x, top_left_y)]: returns [(need_redraw, state)]. *)
Definition scroll_to (st : LState) (top_left_x top_left_y : Z)
    : res (bool * LState) :=
  let vw := viewport_width st in
  let vh := viewport_height st in
  let tw := tile_width image in
  let th := tile_height image in
  zw <- not_none (zoomed_image_width st) ;;
  zh <- not_none (zoomed_image_height st) ;;
  let top_left_x := if top_left_x + vw >=? zw then zw - vw else top_left_x in
  let top_left_y := if top_left_y + vh >=? zh then zh - vh else top_left_y in
  let top_left_x := if top_left_x <? 0 then 0 else top_left_x in
  let top_left_y := if top_left_y <? 0 then 0 else top_left_y in
  let xdiff := viewport_x_on_fullimage st - top_left_x in
  let ydiff := viewport_y_on_fullimage st - top_left_y in
  if (xdiff =? 0) && (ydiff =? 0) then Ok (false, st)
  else
    let vx := viewport_x st - xdiff in
    let vy := viewport_y st - ydiff in
    let vfx := top_left_x in
    let vfy := top_left_y in
    (* clip viewport on full image *)
    let '(clip_right, vfx) :=
      if vfx + vw >? zw then (vfx + vw - zw, zw - vw) else (0, vfx) in
    let '(clip_bottom, vfy) :=
      if vfy + vh >? zh then (vfy + vh - zh, zh - vh) else (0, vfy) in
    let '(clip_left, vfx, clip_right) :=
      if vfx <? 0 then (- vfx, 0, 0) else (0, vfx, clip_right) in
    let '(clip_top, vfy, clip_bottom) :=
      if vfy <? 0 then (- vfy, 0, 0) else (0, vfy, clip_bottom) in
    let ntxs := x_to_tile image vfx - extra_tiles st in
    let ntys := y_to_tile image vfy - extra_tiles st in
    let ntxe := ntxs + tiles_across_in_canvas st in
    let ntye := ntys + tiles_down_in_canvas st in
    let st_moved :=
      {| viewport_x := vx; viewport_y := vy;
         viewport_width := vw; viewport_height := vh;
         extra_tiles := extra_tiles st; zoom := zoom st;
         zoomed_image_width := zoomed_image_width st;
         zoomed_image_height := zoomed_image_height st;
         canvas_x := canvas_x st; canvas_y := canvas_y st;
         canvas_width := canvas_width st; canvas_height := canvas_height st;
         tile_xstart := tile_xstart st; tile_ystart := tile_ystart st;
         tile_xend := tile_xend st; tile_yend := tile_yend st;
         tiles_across_in_canvas := tiles_across_in_canvas st;
         tiles_down_in_canvas := tiles_down_in_canvas st;
         viewport_x_on_fullimage := vfx; viewport_y_on_fullimage := vfy;
         pixels := pixels st |} in
    if negb ((ntxs =? tile_xstart st) && (ntys =? tile_ystart st)
             && (ntxe =? tile_xend st) && (ntye =? tile_yend st)) then
      let otxs := tile_xstart st in
      let otys := tile_ystart st in
      let otxe := tile_xend st in
      let otye := tile_yend st in
      let extra_tiles_right := if ntxs >? otxs then ntxs - otxs else 0 in
      let extra_tiles_bottom := if ntys >? otys then ntys - otys else 0 in
      let extra_tiles_left := if ntxe <? otxe then otxe - ntxe else 0 in
      let extra_tiles_top := if ntye <? otye then otye - ntye else 0 in
      (* move pixels in numpy array *)
      let copy_width :=
        canvas_width st - tw * (extra_tiles_left + extra_tiles_right) in
      let copy_height :=
        canvas_height st - th * (extra_tiles_top + extra_tiles_bottom) in
      let '(old_pixel_ystart, vy) :=
        if extra_tiles_bottom >? 0
        then (th * extra_tiles_bottom, vy - th * extra_tiles_bottom)
        else (0, vy) in
      let '(new_pixel_ystart, vy) :=
        if extra_tiles_top >? 0
        then (th * extra_tiles_top, vy + th * extra_tiles_top)
        else (0, vy) in
      let '(old_pixel_xstart, vx) :=
        if extra_tiles_right >? 0
        then (tw * extra_tiles_right, vx - tw * extra_tiles_right)
        else (0, vx) in
      let '(new_pixel_xstart, vx) :=
        if extra_tiles_left >? 0
        then (tw * extra_tiles_left, vx + tw * extra_tiles_left)
        else (0, vx) in
      p <- not_none (pixels st) ;;
      p' <- setitem2 p new_pixel_ystart (new_pixel_ystart + copy_height)
              new_pixel_xstart (new_pixel_xstart + copy_width)
              p old_pixel_ystart (old_pixel_ystart + copy_height)
              old_pixel_xstart (old_pixel_xstart + copy_width) ;;
      (* load new tiles *)
      _ <- num_tiles_across image (zoom st) ;;
      _ <- num_tiles_down image (zoom st) ;;
      pix <- load_tiles (zoom st) ntxs ntys ntxe ntye
               (canvas_width st) (canvas_height st) (Some p') false true
               otxs otys otxe otye ;;
      let vx := if clip_left >? 0 then vx + clip_left
                else if clip_right >? 0 then vx - clip_right else vx in
      let vy := if clip_top >? 0 then vy + clip_top
                else if clip_bottom >? 0 then vy - clip_bottom else vy in
      Ok (true,
          {| viewport_x := vx; viewport_y := vy;
             viewport_width := vw; viewport_height := vh;
             extra_tiles := extra_tiles st; zoom := zoom st;
             zoomed_image_width := zoomed_image_width st;
             zoomed_image_height := zoomed_image_height st;
             canvas_x := canvas_x st; canvas_y := canvas_y st;
             canvas_width := canvas_width st; canvas_height := canvas_height st;
             tile_xstart := ntxs; tile_ystart := ntys;
             tile_xend := ntxe; tile_yend := ntye;
             tiles_across_in_canvas := tiles_across_in_canvas st;
             tiles_down_in_canvas := tiles_down_in_canvas st;
             viewport_x_on_fullimage := vfx; viewport_y_on_fullimage := vfy;
             pixels := pix |})
    else Ok (false, st_moved).

(** [scroll(dx, dy)]. *)
Definition scroll (st : LState) (dx dy : Z) : res (bool * LState) :=
  scroll_to st (viewport_x_on_fullimage st - dx) (viewport_y_on_fullimage st - dy).

(** The state after [self._zoom = z]. *)
Definition with_zoom (st : LState) (z : Z) : LState :=
  {| viewport_x := viewport_x st; viewport_y := viewport_y st;
     viewport_width := viewport_width st;
     viewport_height := viewport_height st;
     extra_tiles := extra_tiles st; zoom := z;
     zoomed_image_width := zoomed_image_width st;
     zoomed_image_height := zoomed_image_height st;
     canvas_x := canvas_x st; canvas_y := canvas_y st;
     canvas_width := canvas_width st; canvas_height := canvas_height st;
     tile_xstart := tile_xstart st; tile_ystart := tile_ystart st;
     tile_xend := tile_xend st; tile_yend := tile_yend st;
     tiles_across_in_canvas := tiles_across_in_canvas st;
     tiles_down_in_canvas := tiles_down_in_canvas st;
     viewport_x_on_fullimage := viewport_x_on_fullimage st;
     viewport_y_on_fullimage := viewport_y_on_fullimage st;
     pixels := pixels st |}.

(** [zoom_to(zoom, centerx, centery)]; comparing with a [min_zoom] of
    [None] raises [TypeError]. *)
Definition zoom_to (st : LState) (z centerx centery : Z) : res (bool * LState) :=
  mz <- not_none (min_zoom image) ;;
  if (z <? mz) || (z >? max_zoom image) || (z =? zoom st) then Ok (false, st)
  else
    let centerx := centerx + viewport_x_on_fullimage st in
    let centery := centery + viewport_y_on_fullimage st in
    let zoom_increase := z - zoom st in
    let '(centerx, centery) :=
      if zoom_increase >? 0
      then (Z.shiftl centerx zoom_increase, Z.shiftl centery zoom_increase)
      else (Z.shiftr centerx (- zoom_increase), Z.shiftr centery (- zoom_increase)) in
    let st_z := with_zoom st z in
    st' <- load_image st_z (Some (centerx, centery)) ;;
    Ok (true, st').

(** The [zoom] setter: a value other than [-1] is clamped into
    [[min_zoom, max_zoom]]; comparing with a [min_zoom] of [None] raises
    [TypeError]. *)
Definition set_zoom (st : LState) (value : Z) : res LState :=
  if negb (value =? -1) then
    mz <- not_none (min_zoom image) ;;
    let value := if value <? mz then mz else value in
    let value := if value >? max_zoom image then max_zoom image else value in
    Ok (with_zoom st value)
  else Ok (with_zoom st value).

(** [to_qimage()]. The canvas has three axes, so the
    [len(self._pixels.shape) == 2] branch is never taken and
    [len(self._pixels.shape) == 3] always holds; [shape[2]] is [chans]. *)
Definition to_qimage (st : LState) : res (QImage * QRect) :=
  match pixels st with
  | None => Ok (QImageNull, mk_QRect 0 0 0 0)
  | Some p =>
      let width := Z.min (viewport_width st) (canvas_width st) in
      let height := Z.min (viewport_height st) (canvas_height st) in
      let qrect := mk_QRect (viewport_x st) (viewport_y st) width height in
      match dtype p with
      | UInt8 =>
          if chans p =? 3 then
            Ok (QImageOf p (if band_format image =? BGR then Format_RGB888
                            else Format_BGR888), qrect)
          else if chans p =? 4 then
            Ok (QImageOf p (if band_format image =? BGR then Format_ARGB32
                            else Format_BGR32), qrect)
          else Err NotImplementedException
      | OtherDType _ => Err NotImplementedException
      end
  end.

End LoadedImage.

(** ** Reading the metadata: [DZImage.open] and [LIImage.open] *)

(** A Python value read from a file: an XML attribute (a string), a
    number of the large_image metadata dict, or the literal [0]. *)
Inductive pyval :=
| PStr (s : string)
| PInt (z : Z).

Fixpoint assoc {V} (k : string) (l : list (string * V)) : option V :=
  match l with
  | [] => None
  | (k', v) :: r => if String.eqb k k' then Some v else assoc k r
  end.

(** Every character is one of [0-9]. *)
Fixpoint all_digits (s : string) : bool :=
  match s with
  | EmptyString => true
  | String c r =>
      let n := Ascii.nat_of_ascii c in
      (Nat.leb 48 n && Nat.leb n 57) && all_digits r
  end.

(** The string without the newline that ends it, if any. *)
Fixpoint drop_final_newline (s : string) : string :=
  match s with
  | EmptyString => EmptyString
  | String c EmptyString =>
      if Ascii.eqb c (Ascii.ascii_of_nat 10) then EmptyString else s
  | String c r => String c (drop_final_newline r)
  end.

(** [re.search('^[0-9]+$', d)]: [$] matches at the end of the string and
    also just before a newline that ends it. *)
Definition is_dir_number (s : string) : bool :=
  match drop_final_newline s with
  | EmptyString => false
  | s' => all_digits s'
  end.

Fixpoint insert_desc (x : Z) (l : list Z) : list Z :=
  match l with
  | [] => [x]
  | y :: r => if x >=? y then x :: l else y :: insert_desc x r
  end.

(** [l.sort(reverse=True)]. *)
Definition sort_desc (l : list Z) : list Z := fold_right insert_desc [] l.

(** [list(range(n, -1, -1))]. *)
Definition range_down_to_0 (n : Z) : list Z := rev (zrange 0 (n + 1)).

Section Open.
(** Python's [int()] on a string; [None] when it raises [ValueError]. *)
Variable int_of_str : string -> option Z.

Definition py_int (v : pyval) : res Z :=
  match v with
  | PInt z => Ok z
  | PStr s => match int_of_str s with Some z => Ok z | None => Err ValueError end
  end.

(** [try: int(v) except ValueError: raise FileFormatError(...)]. *)
Definition int_or_ffe (v : pyval) : res Z :=
  match py_int v with
  | Err ValueError => Err FileFormatError
  | r => r
  end.

(** The directory scan of [DZImage.open]: [(max_num, min_num, dirs)]. *)
Definition scan_dirs (names : list string) : res (Z * option Z * list Z) :=
  foldM (fun '(max_num, min_num, dirs) d =>
           if is_dir_number d then
             dir_num <- py_int (PStr d) ;;
             let max_num := if dir_num >? max_num then dir_num else max_num in
             let min_num := match min_num with
                            | None => Some dir_num
                            | Some mn => if dir_num <? mn then Some dir_num else Some mn
                            end in
             Ok (max_num, min_num, dirs ++ [dir_num])
           else Ok (max_num, min_num, dirs))
        names (0, None, []).

(** The zoom tables: the biggest level gets the full size, each next level
    down gets [ceil(size / 2)] of the previous one. *)
Definition zoom_tables (dirs : list Z) (w h : Z) : dict * dict :=
  let '(zw, zh, _, _) :=
    fold_left (fun '(zw, zh, w, h) d =>
                 (dict_set d w zw, dict_set d h zh,
                  py_ceil_div w 2, py_ceil_div h 2))
              (sort_desc dirs) ([], [], w, h) in
  (zw, zh).

(** [DZImage.open]: [image_tag] and [size_tag] are the attributes of the
    [Image] and [Size] tags of the XML file ([None] when the tag is absent),
    [listdir] the entries of the [_files] directory ([None] when it cannot
    be listed). [_width] and [_height] are attributes of a fresh object:
    reading one that was never assigned raises [AttributeError]. *)
Definition dz_open (image_tag size_tag : option (list (string * string)))
    (listdir : option (list string)) : res DZMeta :=
  match image_tag with
  | None => Err FileFormatError
  | Some ia =>
    let width := option_map PStr (assoc "Width" ia) in
    let height := option_map PStr (assoc "Height" ia) in
    match assoc "TileSize" ia with
    | None => Err FileFormatError
    | Some tile =>
      let overlap := match assoc "Overlap" ia with
                     | Some o => PStr o
                     | None => PInt 0
                     end in
      match assoc "Format" ia with
      | None => Err FileFormatError
      | Some fmt =>
        let '(width, height) :=
          match size_tag with
          | Some sa =>
              (match assoc "Width" sa with Some w => Some (PStr w) | None => width end,
               match assoc "Height" sa with Some h => Some (PStr h) | None => height end)
          | None => (width, height)
          end in
        w <- (match width with Some w => Ok w | None => Err AttributeError end) ;;
        h <- (match height with Some h => Ok h | None => Err AttributeError end) ;;
        w <- int_or_ffe w ;;
        h <- int_or_ffe h ;;
        ov <- int_or_ffe overlap ;;
        tw <- int_or_ffe (PStr tile) ;;
        names <- (match listdir with Some l => Ok l | None => Err OSError end) ;;
        '(max_num, min_num, dirs) <- scan_dirs names ;;
        let '(zw, zh) := zoom_tables dirs w h in
        Ok {| dz_width := w; dz_height := h; dz_tile_width := tw;
              dz_overlap := ov; dz_format := fmt;
              dz_zoom_to_width := zw; dz_zoom_to_height := zh;
              dz_zooms := range_down_to_0 max_num;
              dz_max_zoom := max_num; dz_min_zoom := min_num |}
      end
    end
  end.

End Open.

(** The attributes [LIImage.open] leaves on the object; the tile size and
    the image size are stored as read from the metadata. *)
Record LIMeta := mk_LIMeta {
  lm_tile_width : pyval;
  lm_tile_height : pyval;
  lm_width : pyval;
  lm_height : pyval;
  lm_zoom_to_width : dict;
  lm_zoom_to_height : dict;
  lm_max_zoom : Z;
  lm_zooms : list Z
}.

(** [v - 1] and [v >> n] on a metadata value. *)
Definition py_sub1 (v : pyval) : res Z :=
  match v with PInt z => Ok (z - 1) | PStr _ => Err TypeError end.

Definition py_shiftr (v : pyval) (n : Z) : res Z :=
  match v with PInt z => Ok (Z.shiftr z n) | PStr _ => Err TypeError end.

(** [LIImage.open] after [large_image.open(filename).getMetadata()]
    returned [meta]. *)
Definition li_open (meta : list (string * pyval)) : res LIMeta :=
  max_zoom <- (match assoc "levels" meta with
               | Some lv => py_sub1 lv
               | None => Ok 0
               end) ;;
  match assoc "tileWidth" meta, assoc "tileHeight" meta with
  | None, _ => Err FileFormatError
  | _, None => Err FileFormatError
  | Some tw, Some th =>
    match assoc "sizeX" meta, assoc "sizeY" meta with
    | None, _ => Err FileFormatError
    | _, None => Err FileFormatError
    | Some w, Some h =>
      '(zw, zh) <-
        foldM (fun '(zw, zh) z =>
                 let level := max_zoom - z in
                 zoomed_width <- py_shiftr w level ;;
                 zoomed_height <- py_shiftr h level ;;
                 Ok (dict_set z zoomed_width zw, dict_set z zoomed_height zh))
              (zrange 0 (max_zoom + 1)) ([], []) ;;
      Ok {| lm_tile_width := tw; lm_tile_height := th;
            lm_width := w; lm_height := h;
            lm_zoom_to_width := zw; lm_zoom_to_height := zh;
            lm_max_zoom := max_zoom; lm_zooms := range_down_to_0 max_zoom |}
    end
  end.

(** ** Vocabulary of the properties *)

(** The target clipped into [[0, size - viewport]] (to [0] when the image
    is smaller than the viewport). *)
Definition clip_pos (t size view : Z) : Z := Z.max 0 (Z.min t (size - view)).

(** [x] is the clipped target, with the bounds that follow from it. *)
Definition clamped_pos (x t size view : Z) : Prop :=
  x = clip_pos t size view /\ 0 <= x /\ (size < view -> x = 0)
  /\ (view <= size -> x + view <= size).

(** The tile window a viewport top-left [(x, y)] asks for:
    [x_to_tile(x) - extra_tiles], extended by the canvas tile counts. *)
Definition window_of (im : BigImage) (st : LState) (x y : Z) : Z * Z * Z * Z :=
  let txs := x_to_tile im x - extra_tiles st in
  let tys := y_to_tile im y - extra_tiles st in
  (txs, tys, txs + tiles_across_in_canvas st, tys + tiles_down_in_canvas st).

Definition current_window (st : LState) : Z * Z * Z * Z :=
  (tile_xstart st, tile_ystart st, tile_xend st, tile_yend st).

(** The tile window is the one the viewport position asks for. *)
Definition window_ok (im : BigImage) (st : LState) : Prop :=
  current_window st
  = window_of im st (viewport_x_on_fullimage st) (viewport_y_on_fullimage st).

(** A loaded image: the window matches the viewport position, the zoomed
    size is known and the canvas is allocated with one cell of
    [tile_width x tile_height] pixels per tile of the window. *)
Definition loaded (im : BigImage) (st : LState) : Prop :=
  window_ok im st
  /\ 0 <= tiles_across_in_canvas st /\ 0 <= tiles_down_in_canvas st
  /\ canvas_width st = tiles_across_in_canvas st * tile_width im
  /\ canvas_height st = tiles_down_in_canvas st * tile_height im
  /\ match zoomed_image_width st, zoomed_image_height st, pixels st with
     | Some _, Some _, Some p => rows p = canvas_height st /\ cols p = canvas_width st
     | _, _, _ => False
     end.

(** Tile [(tx, ty)] is in the tile window of [st]. *)
Definition in_window (st : LState) (tx ty : Z) : Prop :=
  tile_xstart st <= tx < tile_xend st /\ tile_ystart st <= ty < tile_yend st.

(** Top-left canvas pixel of the cell of tile [(tx, ty)]. *)
Definition cell_x (im : BigImage) (st : LState) (tx : Z) : Z :=
  tile_width im * (tx - tile_xstart st).
Definition cell_y (im : BigImage) (st : LState) (ty : Z) : Z :=
  tile_height im * (ty - tile_ystart st).

(** Every tile inside the image that [load_tile] returns fits its cell once
    its overlap is cut off: overlaps are not negative and the buffer is at
    least the two overlaps and at most one tile plus the overlaps. *)
Definition tiles_fit (im : BigImage) (zoom : Z) : Prop :=
  forall tx ty nta ntd buf r b,
    num_tiles_across im zoom = Ok nta -> num_tiles_down im zoom = Ok ntd ->
    0 <= tx < nta -> 0 <= ty < ntd ->
    load_tile im tx ty zoom = Ok buf ->
    right_overlap im tx zoom = Ok r -> bottom_overlap im ty zoom = Ok b ->
    0 <= left_overlap im tx /\ 0 <= r
    /\ left_overlap im tx + r <= cols buf <= tile_width im + left_overlap im tx + r
    /\ 0 <= top_overlap im ty /\ 0 <= b
    /\ top_overlap im ty + b <= rows buf <= tile_height im + top_overlap im ty + b.

(** The [Width] or [Height] a DeepZoom manifest gives: the one of the
    [Size] tag when it has it, else the one of the [Image] tag. *)
Definition dzi_dimension (key : string) (image_tag : list (string * string))
    (size_tag : option (list (string * string))) : option string :=
  match size_tag with
  | Some sa => match assoc key sa with
               | Some v => Some v
               | None => assoc key image_tag
               end
  | None => assoc key image_tag
  end.

(** The focus point rescaled from zoom [cur] to zoom [z]. *)
Definition rescale (c cur z : Z) : Z :=
  if cur <? z then c * 2 ^ (z - cur) else c / 2 ^ (cur - z).

(** The viewport top-left [load_image] aims at before clamping: the
    centre minus half the viewport ([int(w/2)]), or the current one. *)
Definition load_target (st : LState) (center : option (Z * Z)) : Z * Z :=
  match center with
  | Some (cx, cy) =>
      (cx - Z.quot (viewport_width st) 2, cy - Z.quot (viewport_height st) 2)
  | None => (viewport_x_on_fullimage st, viewport_y_on_fullimage st)
  end.

(** The accumulator [(self._pixels, first)] of [_load_tiles] holds a
    canvas of [ch x cw] pixels. *)
Definition canvas_ok (ch cw : Z) (acc : option ndarray * bool) : Prop :=
  match fst acc with Some p => rows p = ch /\ cols p = cw | None => False end.

(** The canvas of the accumulator holds [v] at pixel [(I, J)]. *)
Definition pixel_is (I J v : Z) (acc : option ndarray * bool) : Prop :=
  match fst acc with Some p => px p I J = v | None => False end.

(** The [skip_loaded] test of the inner loop of [_load_tiles]: the tile
    was already in the old window. *)
Definition skipped (skip : bool) (otxs otys otxe otye tilex tiley : Z) : bool :=
  skip && (tiley >=? otys) && (tiley <? otye) && (tilex >=? otxs) && (tilex <? otxe).

(** A zoom [fit_to_viewport] passes over: its size lookup raises
    [ZoomError] or its size does not fit the viewport. *)
Definition passed_over (im : BigImage) (vw vh z : Z) : Prop :=
  image_width_for_zoom im z = Err ZoomError
  \/ (exists w, image_width_for_zoom im z = Ok w
                /\ image_height_for_zoom im z = Err ZoomError)
  \/ (exists w h, image_width_for_zoom im z = Ok w
                  /\ image_height_for_zoom im z = Ok h /\ ~ (w <= vw /\ h < vh)).

(** Where the canvas pixel of the left (top) edge of the tile window lies
    relative to the left (top) edge of the viewport. *)
Definition canvas_offset_x (im : BigImage) (st : LState) : Z :=
  viewport_x st - (viewport_x_on_fullimage st - tile_width im * tile_xstart st).

Definition canvas_offset_y (im : BigImage) (st : LState) : Z :=
  viewport_y st - (viewport_y_on_fullimage st - tile_height im * tile_ystart st).

(** What the directory scan of [DZImage.open] keeps as it goes:
    [(max_num, min_num, dirs)]. *)
Definition scan_ok (r : Z * option Z * list Z) : Prop :=
  let '(mx, mn, ds) := r in
  0 <= mx /\ (forall d, In d ds -> d <= mx) /\ (mx = 0 \/ In mx ds)
  /\ (mn = None <-> ds = [])
  /\ (forall n, mn = Some n -> In n ds /\ forall d, In d ds -> n <= d).

(** ** Concrete pyramids used by the examples *)
Module Examples.

(** [int()] on unsigned decimal strings, which may end in a newline
    ([int] ignores it). *)
Fixpoint digits_value (s : string) (acc : Z) : option Z :=
  match s with
  | EmptyString => Some acc
  | String c r =>
      let n := Z.of_nat (Ascii.nat_of_ascii c) in
      if (48 <=? n) && (n <=? 57) then digits_value r (acc * 10 + n - 48)
      else None
  end.

Definition dec_int (s : string) : option Z :=
  match drop_final_newline s with
  | EmptyString => None
  | s' => digits_value s' 0
  end.

Definition meta_of (r : res DZMeta) : DZMeta :=
  match r with
  | Ok m => m
  | Err _ => mk_DZMeta 0 0 0 0 "" [] [] [] 0 None
  end.

(** A 20 x 12 DeepZoom image with tiles of 4 pixels and an overlap of 1,
    levels 0, 1, 2. *)
Definition dzi_attrs : list (string * string) :=
  [("TileSize", "4"); ("Overlap", "1"); ("Format", "png");
   ("Width", "20"); ("Height", "12")]%string.

Definition meta : DZMeta :=
  meta_of (dz_open dec_int (Some dzi_attrs) None (Some ["0"; "1"; "2"]%string)).

(** Tile files of the computed size whose pixels encode where they come from. *)
Definition imread (tx ty z : Z) : option ndarray :=
  match dz_tile_end_x_plus_one meta tx z, dz_tile_end_y_plus_one meta ty z with
  | Ok ex, Ok ey =>
      Some (mk_ndarray (ey - dz_tile_start meta ty false)
              (ex - dz_tile_start meta tx false) 3 UInt8
              (fun i j => 1000000 * tx + 10000 * ty + 100 * i + j))
  | _, _ => None
  end.

Definition image : BigImage := dz_image meta imread.

(** The same pyramid without its level 0 directory. *)
Definition meta_no0 : DZMeta :=
  meta_of (dz_open dec_int (Some dzi_attrs) None (Some ["1"; "2"]%string)).

Definition image_no0 : BigImage := dz_image meta_no0 imread.

(** A 6 x 5 viewport with one extra tile each side, at zoom 2 and at the
    5 x 3 zoom 0. *)
Definition state_at (z : Z) : LState :=
  match load_image image (init_state 1 z 6 5) None with
  | Ok st => st
  | Err _ => init_state 1 z 6 5
  end.

(** A large_image pyramid of one 10 x 6 level with tiles of 4 pixels whose
    backend returns an edge tile one pixel wider than the computed one. *)
Definition li_geom : LIGeom := mk_LIGeom 4 4 [(0, 10)] [(0, 6)] 0 [0].

Definition wide_tile (tx ty z : Z) : ndarray := mk_ndarray 4 3 3 UInt8 (fun _ _ => 0).

(** A level directory name: ["7"] followed by a newline. *)
Definition name_7nl : string :=
  String (Ascii.ascii_of_nat 55) (String (Ascii.ascii_of_nat 10) EmptyString).

(** A backend that returns every tile at the full 4 x 4 tile size. *)
Definition full_tile (tx ty z : Z) : ndarray :=
  mk_ndarray 4 4 3 UInt8 (fun i j => 100 * i + j).

(** [Image] tag attributes with a tile size and a format but no width. *)
Definition dzi_no_width : list (string * string) :=
  [("TileSize", "4"); ("Format", "png"); ("Height", "12")]%string.

(** A 9 x 9 Deep Zoom level with tiles of 4 pixels and an overlap of 2. *)
Definition meta_ov2 : DZMeta :=
  mk_DZMeta 9 9 4 2 "png" [(0, 9)] [(0, 9)] [0] 0 (Some 0).

(** [image] loaded at its 10 x 6 zoom into an 11 x 1 viewport. *)
Definition narrow_state : LState :=
  match load_image image (init_state 1 1 11 1) None with
  | Ok st => st
  | Err _ => init_state 1 1 11 1
  end.

(** [state_at 2] scrolled to [(14, 7)] and then set to the fitting zoom
    [-1]: its position is still that of the 20 x 12 zoom. *)
Definition stale_state : LState :=
  match scroll_to image (state_at 2) 14 7 with
  | Ok (_, s) => with_zoom s (-1)
  | Err _ => state_at 2
  end.

(** The pyramid of [meta] without its level 1 directory. *)
Definition meta_no1 : DZMeta :=
  meta_of (dz_open dec_int (Some dzi_attrs) None (Some ["0"; "2"]%string)).

(** large_image metadata of a 21 x 10 image with three levels. *)
Definition li_meta_levels : list (string * pyval) :=
  [("levels", PInt 3); ("tileWidth", PInt 4); ("tileHeight", PInt 4);
   ("sizeX", PInt 21); ("sizeY", PInt 10)]%string.

End Examples.

(** * Properties *)

(** ** Zooming *)

Lemma shiftl_pow2 (x n : Z) : 0 <= n -> Z.shiftl x n = x * 2 ^ n.
Proof. intros Hn. apply Z.shiftl_mul_pow2. exact Hn. Qed.

Lemma shiftr_pow2 (x n : Z) : 0 <= n -> Z.shiftr x n = x / 2 ^ n.
Proof. intros Hn. apply Z.shiftr_div_pow2. exact Hn. Qed.

(** C6: for a target zoom inside [[min_zoom, max_zoom]] and different from
    the current one, [zoom_to] moves the focus to full-image coordinates
    (adding the viewport top-left), rescales it by [2^(target - current)]
    (multiplying when zooming in, floor-dividing when zooming out), sets the
    zoom and reloads the whole canvas centred there with [load_image], and
    returns [true] with the reloaded state. *)
Theorem zoom_to_rescales_and_reloads (im : BigImage) (st : LState)
    (z fx fy mz : Z)
    (Hmz : min_zoom im = Some mz) (Hlo : mz <= z) (Hhi : z <= max_zoom im)
    (Hne : z <> zoom st) :
  zoom_to im st z fx fy
  = (st' <- load_image im (with_zoom st z)
             (Some (rescale (fx + viewport_x_on_fullimage st) (zoom st) z,
                    rescale (fy + viewport_y_on_fullimage st) (zoom st) z)) ;;
     Ok (true, st')).
Proof.
  unfold zoom_to. rewrite Hmz. simpl.
  replace ((z <? mz) || (z >? max_zoom im) || (z =? zoom st)) with false.
  2:{ symmetry. apply Bool.orb_false_iff. split; [apply Bool.orb_false_iff; split|].
      - apply Z.ltb_ge. exact Hlo.
      - rewrite Z.gtb_ltb. apply Z.ltb_ge. exact Hhi.
      - apply Z.eqb_neq. exact Hne. }
  unfold rescale.
  destruct (z - zoom st >? 0) eqn:Hgt.
  - apply Z.gtb_lt in Hgt.
    replace (zoom st <? z) with true by (symmetry; apply Z.ltb_lt; lia).
    rewrite !shiftl_pow2 by lia. reflexivity.
  - rewrite Z.gtb_ltb, Z.ltb_ge in Hgt.
    replace (zoom st <? z) with false by (symmetry; apply Z.ltb_ge; lia).
    replace (- (z - zoom st)) with (zoom st - z) by lia.
    rewrite !shiftr_pow2 by lia. reflexivity.
Qed.

Lemma zoom_to_rescales_and_reloads_witness :
  zoom_to Examples.image (Examples.state_at 1) 2 1 1
  = (st' <- load_image Examples.image (with_zoom (Examples.state_at 1) 2)
             (Some (rescale (1 + viewport_x_on_fullimage (Examples.state_at 1)) 1 2,
                    rescale (1 + viewport_y_on_fullimage (Examples.state_at 1)) 1 2)) ;;
     Ok (true, st')).
Proof.
  apply (zoom_to_rescales_and_reloads Examples.image (Examples.state_at 1) 2 1 1 0).
  - vm_compute. reflexivity.
  - lia.
  - vm_compute. discriminate.
  - vm_compute. discriminate.
Defined.

(** C7: a target zoom outside [[min_zoom, max_zoom]] or equal to the
    current zoom makes [zoom_to] return [false] and leave the whole state
    (zoom, position, canvas, tile window) as it was. *)
Theorem zoom_to_noop (im : BigImage) (st : LState) (z cx cy mz : Z)
    (Hmz : min_zoom im = Some mz)
    (H : z < mz \/ max_zoom im < z \/ z = zoom st) :
  zoom_to im st z cx cy = Ok (false, st).
Proof.
  unfold zoom_to. rewrite Hmz. simpl.
  replace ((z <? mz) || (z >? max_zoom im) || (z =? zoom st)) with true.
  - reflexivity.
  - symmetry. destruct H as [H | [H | H]].
    + apply Z.ltb_lt in H. now rewrite H.
    + assert (E : (z >? max_zoom im) = true) by (apply Z.gtb_lt; exact H).
      rewrite E. now rewrite Bool.orb_true_r.
    + apply Z.eqb_eq in H. rewrite H. now rewrite Bool.orb_true_r.
Qed.

Lemma zoom_to_noop_witness :
  zoom_to Examples.image (Examples.state_at 2) 7 0 0 = Ok (false, Examples.state_at 2).
Proof.
  apply (zoom_to_noop Examples.image (Examples.state_at 2) 7 0 0 0).
  - vm_compute. reflexivity.
  - right. left. vm_compute. reflexivity.
Defined.

(** ** Loading *)

(** C9: [load_image] with a viewport of width 0 or height 0 returns at
    once and leaves the whole state as it was. *)
Theorem load_image_zero_viewport (im : BigImage) (st : LState)
    (center : option (Z * Z))
    (H : viewport_width st = 0 \/ viewport_height st = 0) :
  load_image im st center = Ok st.
Proof.
  unfold load_image. destruct H as [H | H]; rewrite H.
  - reflexivity.
  - rewrite Z.eqb_refl, Bool.orb_true_r. reflexivity.
Qed.

Lemma load_image_zero_viewport_witness :
  load_image Examples.image (init_state 1 2 0 5) None = Ok (init_state 1 2 0 5).
Proof.
  apply load_image_zero_viewport. left. reflexivity.
Defined.

(** C10: before any canvas is loaded, [to_qimage] returns an empty image
    and the rectangle [(0, 0, 0, 0)]. *)
Theorem to_qimage_before_load (im : BigImage) (st : LState)
    (H : pixels st = None) :
  to_qimage im st = Ok (QImageNull, mk_QRect 0 0 0 0).
Proof. unfold to_qimage. rewrite H. reflexivity. Qed.

Lemma to_qimage_before_load_witness :
  to_qimage Examples.image (init_state 2 (-1) 640 480)
  = Ok (QImageNull, mk_QRect 0 0 0 0).
Proof. apply to_qimage_before_load. reflexivity. Defined.

(** ** Fitting the image to the viewport *)

(** C5: on a DeepZoom pyramid whose level directories are 1 and 2 (no
    level 0), no level fits a 1 x 1 viewport and [fit_to_viewport] falls
    back to zoom 0, which the image does not have, paired with the size of
    level 1, the most zoomed-out level. *)
Theorem fit_to_viewport_fallback_zoom0 :
  min_zoom Examples.image_no0 = Some 1
  /\ image_width_for_zoom Examples.image_no0 1 = Ok 10
  /\ image_height_for_zoom Examples.image_no0 1 = Ok 6
  /\ image_width_for_zoom Examples.image_no0 0 = Err ZoomError
  /\ fit_to_viewport Examples.image_no0 1 1 = Ok (0, 10, 6).
Proof. vm_compute. repeat split. Qed.

(** ** Fetching tiles *)

Ltac destruct_matches :=
  repeat match goal with
         | |- context [match ?x with _ => _ end] =>
             let E := fresh "E" in destruct x eqn:E
         end.




(** ** Reading the metadata *)

(** C8, as the code has it: when the [Image] tag of a [.dzi] file has a
    [TileSize] and a [Format] but no [Width] (or no [Height]) and no [Size]
    tag gives one, [DZImage.open] does not raise [FileFormatError]: the
    attribute [_width] (or [_height]) is only assigned when the value is
    found, so the check [self._width is None] reads an attribute that was
    never set and raises [AttributeError]. *)
Theorem dz_open_missing_size ios ia sz ld t f :
  assoc "TileSize" ia = Some t -> assoc "Format" ia = Some f ->
  dzi_dimension "Width" ia sz = None \/ dzi_dimension "Height" ia sz = None ->
  dz_open ios (Some ia) sz ld = Err AttributeError.
Proof.
  intros Ht Hf H. unfold dz_open. rewrite Ht, Hf. unfold dzi_dimension in H.
  destruct sz as [sa|];
    [destruct (assoc "Width" sa) as [a|]; destruct (assoc "Height" sa) as [b|]|];
    destruct (assoc "Width" ia) as [w|]; destruct (assoc "Height" ia) as [h|];
    cbn [option_map bind]; try reflexivity; destruct H; discriminate.
Qed.

Lemma dz_open_missing_size_witness :
  (assoc "TileSize" Examples.dzi_no_width = Some "4"
   /\ assoc "Format" Examples.dzi_no_width = Some "png"
   /\ dzi_dimension "Width" Examples.dzi_no_width None = None)%string
  /\ dz_open Examples.dec_int (Some Examples.dzi_no_width) None (Some ["0"]%string)
     = Err AttributeError.
Proof.
  split; [repeat split|].
  apply (dz_open_missing_size _ _ _ _ "4" "png"); [reflexivity|reflexivity|left; reflexivity].
Defined.

(** ** The viewport position *)

Ltac zcases :=
  rewrite ?Z.geb_leb, ?Z.gtb_ltb;
  repeat match goal with
         | |- context [?a <=? ?b] => destruct (Z.leb_spec a b)
         | |- context [?a <? ?b] => destruct (Z.ltb_spec a b)
         | |- context [?a =? ?b] => destruct (Z.eqb_spec a b)
         end.

Lemma clamp_clip (t s v : Z) :
  (if (if t + v >=? s then s - v else t) <? 0 then 0
   else if t + v >=? s then s - v else t) = clip_pos t s v.
Proof.
  unfold clip_pos. zcases; lia.
Qed.

Ltac crush H :=
  repeat match type of H with
  | Err _ = Ok _ => discriminate H
  | context [match ?x with _ => _ end] =>
      let E := fresh "E" in destruct x eqn:E; cbn [bind] in H
  | context [bind ?m _] =>
      let E := fresh "E" in destruct m eqn:E; cbn [bind] in H
  end.

Ltac crush_nb H :=
  repeat match type of H with
  | Err _ = Ok _ => discriminate H
  | context [match ?x with _ => _ end] =>
      let T := type of x in
      lazymatch T with
      | prod _ _ => let E := fresh "E" in destruct x eqn:E; cbn [bind] in H
      | res _ => let E := fresh "E" in destruct x eqn:E; cbn [bind] in H
      | option _ => let E := fresh "E" in destruct x eqn:E; cbn [bind] in H
      end
  | context [bind ?m _] =>
      let E := fresh "E" in destruct m eqn:E; cbn [bind] in H
  end.

Ltac pair_cases :=
  repeat match goal with
         | E : (if ?c then _ else _) = _ |- _ =>
             let C := fresh "C" in destruct c eqn:C; inversion E; subst; clear E
         end.

Ltac zhyps :=
  repeat match goal with
         | E : (_ >? _) = _ |- _ => rewrite Z.gtb_ltb in E
         | E : (_ >=? _) = _ |- _ => rewrite Z.geb_leb in E
         | E : (_ <? _) = true |- _ => apply Z.ltb_lt in E
         | E : (_ <? _) = false |- _ => apply Z.ltb_ge in E
         | E : (_ <=? _) = true |- _ => apply Z.leb_le in E
         | E : (_ <=? _) = false |- _ => apply Z.leb_gt in E
         | E : (_ =? _) = true |- _ => apply Z.eqb_eq in E
         | E : (_ =? _) = false |- _ => apply Z.eqb_neq in E
         end.

Lemma clip_pos_bounds t s v :
  0 <= clip_pos t s v /\ (v <= s -> clip_pos t s v <= s - v)
  /\ (s < v -> clip_pos t s v = 0) /\ (0 <= t -> t <= s - v -> clip_pos t s v = t).
Proof. unfold clip_pos. lia. Qed.

Lemma scroll_to_position im st tx ty b st' W H :
  zoomed_image_width st = Some W -> zoomed_image_height st = Some H ->
  scroll_to im st tx ty = Ok (b, st') ->
  viewport_x_on_fullimage st' = clip_pos tx W (viewport_width st)
  /\ viewport_y_on_fullimage st' = clip_pos ty H (viewport_height st)
  /\ zoomed_image_width st' = Some W /\ zoomed_image_height st' = Some H
  /\ viewport_width st' = viewport_width st
  /\ viewport_height st' = viewport_height st.
Proof.
  intros HW HH Hs. unfold scroll_to in Hs. rewrite HW, HH in Hs.
  cbn [bind not_none] in Hs.
  rewrite !clamp_clip in Hs.
  pose proof (clip_pos_bounds tx W (viewport_width st)) as Bx.
  pose proof (clip_pos_bounds ty H (viewport_height st)) as By.
  set (X := clip_pos tx W (viewport_width st)) in *.
  set (Y := clip_pos ty H (viewport_height st)) in *.
  destruct ((viewport_x_on_fullimage st - X =? 0)
            && (viewport_y_on_fullimage st - Y =? 0)) eqn:Ed.
  { injection Hs as <- <-. apply andb_prop in Ed. destruct Ed as [E1 E2].
    apply Z.eqb_eq in E1, E2. repeat split; auto; lia. }
  destruct (X + viewport_width st >? W) eqn:C1;
  destruct (Y + viewport_height st >? H) eqn:C2;
  cbv beta iota in Hs;
  repeat match type of Hs with
         | context [?a <? 0] =>
             let C := fresh "C" in destruct (a <? 0) eqn:C; cbv beta iota in Hs
         end;
  (destruct (negb _) in Hs; [crush_nb Hs|]); injection Hs as <- <-; cbn; clearbody X Y; zhyps; repeat split; lia.
Qed.

Lemma load_image_position im st c st' W H :
  viewport_width st <> 0 -> viewport_height st <> 0 -> zoom st <> -1 ->
  image_width_for_zoom im (zoom st) = Ok W ->
  image_height_for_zoom im (zoom st) = Ok H ->
  load_image im st c = Ok st' ->
  viewport_x_on_fullimage st' = clip_pos (fst (load_target st c)) W (viewport_width st)
  /\ viewport_y_on_fullimage st' = clip_pos (snd (load_target st c)) H (viewport_height st)
  /\ zoomed_image_width st' = Some W /\ zoomed_image_height st' = Some H
  /\ viewport_width st' = viewport_width st
  /\ viewport_height st' = viewport_height st /\ zoom st' = zoom st.
Proof.
  intros Hw Hh Hz HW HH Hl. unfold load_image in Hl.
  apply Z.eqb_neq in Hw, Hh, Hz. rewrite Hw, Hh, Hz in Hl. cbn [orb negb] in Hl.
  rewrite HW, HH in Hl. cbn [bind] in Hl.
  unfold load_target.
  destruct c as [[cx cy]|]; cbv beta iota zeta in Hl; rewrite !clamp_clip in Hl;
  crush_nb Hl; injection Hl as <-; cbn; repeat split; reflexivity.
Qed.

Lemma zoom_to_center im st z fx fy st' :
  zoom_to im st z fx fy = Ok (true, st') ->
  load_image im (with_zoom st z)
    (Some (rescale (fx + viewport_x_on_fullimage st) (zoom st) z,
           rescale (fy + viewport_y_on_fullimage st) (zoom st) z)) = Ok st'.
Proof.
  intros Hz. unfold zoom_to in Hz.
  destruct (min_zoom im) as [mz|]; cbn [bind not_none] in Hz; [|discriminate].
  destruct (_ || _) eqn:Ht; [discriminate|].
  apply orb_false_iff in Ht. destruct Ht as [_ Ht]. apply Z.eqb_neq in Ht.
  unfold rescale.
  destruct (z - zoom st >? 0) eqn:Hgt; zhyps.
  - replace (zoom st <? z) with true by (symmetry; apply Z.ltb_lt; lia).
    rewrite !shiftl_pow2 in Hz by lia.
    destruct (load_image im (with_zoom st z) _); cbn [bind] in Hz; congruence.
  - replace (zoom st <? z) with false by (symmetry; apply Z.ltb_ge; lia).
    replace (- (z - zoom st)) with (zoom st - z) in Hz by lia.
    rewrite !shiftr_pow2 in Hz by lia.
    destruct (load_image im (with_zoom st z) _); cbn [bind] in Hz; congruence.
Qed.

Lemma clip_pos_clamped t s v : clamped_pos (clip_pos t s v) t s v.
Proof. unfold clamped_pos, clip_pos. lia. Qed.

(** C4, as the code has it: [load_image] at zoom [-1] clamps the viewport
    position against the zoomed size of the zoom the state had before, and
    only then lets [fit_to_viewport] pick the zoom. On the 40 x 24 pyramid
    with a 6 x 5 viewport, after scrolling at zoom 2 (20 x 12) to x = 14,
    setting the zoom to [-1] and calling [load_image()] gives zoom 0
    (5 x 3) with x still 14: the viewport lies right of the image,
    [x + viewport width > zoomed width], although the viewport is wider
    than the image and x should be 0. *)
Theorem load_image_fit_stale_clamp :
  match scroll_to Examples.image (Examples.state_at 2) 14 7 with
  | Ok (_, s) =>
      loaded Examples.image s /\ zoom s = 2 /\ zoomed_image_width s = Some 20
      /\ viewport_x_on_fullimage s = 14
      /\ match set_zoom Examples.image s (-1) with
         | Ok s1 =>
             match load_image Examples.image s1 None with
             | Ok st =>
                 zoom st = 0 /\ zoomed_image_width st = Some 5 /\ viewport_width st = 6
                 /\ viewport_x_on_fullimage st = 14
                 /\ viewport_x_on_fullimage st + viewport_width st > 5
             | Err _ => False
             end
         | Err _ => False
         end
  | Err _ => False
  end.
Proof. vm_compute. repeat split; discriminate. Qed.

(** X20: after [scroll_to], [scroll], [load_image] (at a set
    zoom) and [zoom_to], the viewport top-left is the target clipped into
    [[0, zoomed size - viewport size]]: [max 0 (min t (size - view))]. So
    [0 <= x]; [x + viewport width <= zoomed width] when the viewport is not
    wider than the zoomed image; and [x = 0] when it is (the viewport then
    overhangs the image); likewise for [y]. The target is the requested
    top-left for [scroll_to], the top-left minus the delta for [scroll],
    the centre minus half the viewport (or the current top-left) for
    [load_image], and the rescaled focus minus half the viewport for
    [zoom_to]. *)
Theorem viewport_position_clamped :
  (forall im st tx ty b st' W H,
     zoomed_image_width st = Some W -> zoomed_image_height st = Some H ->
     scroll_to im st tx ty = Ok (b, st') ->
     clamped_pos (viewport_x_on_fullimage st') tx W (viewport_width st')
     /\ clamped_pos (viewport_y_on_fullimage st') ty H (viewport_height st')
     /\ zoomed_image_width st' = Some W /\ zoomed_image_height st' = Some H)
  /\ (forall im st dx dy b st' W H,
     zoomed_image_width st = Some W -> zoomed_image_height st = Some H ->
     scroll im st dx dy = Ok (b, st') ->
     clamped_pos (viewport_x_on_fullimage st')
       (viewport_x_on_fullimage st - dx) W (viewport_width st')
     /\ clamped_pos (viewport_y_on_fullimage st')
       (viewport_y_on_fullimage st - dy) H (viewport_height st'))
  /\ (forall im st c st' W H,
     viewport_width st <> 0 -> viewport_height st <> 0 -> zoom st <> -1 ->
     image_width_for_zoom im (zoom st) = Ok W ->
     image_height_for_zoom im (zoom st) = Ok H ->
     load_image im st c = Ok st' ->
     clamped_pos (viewport_x_on_fullimage st') (fst (load_target st c)) W
       (viewport_width st')
     /\ clamped_pos (viewport_y_on_fullimage st') (snd (load_target st c)) H
       (viewport_height st')
     /\ zoomed_image_width st' = Some W /\ zoomed_image_height st' = Some H)
  /\ (forall im st z fx fy st' W H,
     viewport_width st <> 0 -> viewport_height st <> 0 -> z <> -1 ->
     image_width_for_zoom im z = Ok W -> image_height_for_zoom im z = Ok H ->
     zoom_to im st z fx fy = Ok (true, st') ->
     clamped_pos (viewport_x_on_fullimage st')
       (rescale (fx + viewport_x_on_fullimage st) (zoom st) z
        - Z.quot (viewport_width st) 2) W (viewport_width st')
     /\ clamped_pos (viewport_y_on_fullimage st')
       (rescale (fy + viewport_y_on_fullimage st) (zoom st) z
        - Z.quot (viewport_height st) 2) H (viewport_height st')).
Proof.
  split; [|split; [|split]].
  - intros im st tx ty b st' W H HW HH Hs.
    destruct (scroll_to_position im st tx ty b st' W H HW HH Hs)
      as (Ex & Ey & Ew & Eh & Evw & Evh).
    rewrite Ex, Ey, Evw, Evh.
    split; [apply clip_pos_clamped | split; [apply clip_pos_clamped | auto]].
  - intros im st dx dy b st' W H HW HH Hs. unfold scroll in Hs.
    destruct (scroll_to_position im st _ _ b st' W H HW HH Hs)
      as (Ex & Ey & _ & _ & Evw & Evh).
    rewrite Ex, Ey, Evw, Evh. split; apply clip_pos_clamped.
  - intros im st c st' W H Hw Hh Hz HW HH Hl.
    destruct (load_image_position im st c st' W H Hw Hh Hz HW HH Hl)
      as (Ex & Ey & Ew & Eh & Evw & Evh & _).
    rewrite Ex, Ey, Evw, Evh.
    split; [apply clip_pos_clamped | split; [apply clip_pos_clamped | auto]].
  - intros im st z fx fy st' W H Hw Hh Hz HW HH Hzt.
    apply zoom_to_center in Hzt.
    destruct (load_image_position im (with_zoom st z) _ st' W H Hw Hh Hz HW HH Hzt)
      as (Ex & Ey & _ & _ & Evw & Evh & _).
    rewrite Ex, Ey, Evw, Evh. split; apply clip_pos_clamped.
Qed.
Lemma viewport_position_clamped_witness :
  exists st',
    load_image Examples.image (init_state 1 2 6 5) (Some (30, 30)) = Ok st'
    /\ clamped_pos (viewport_x_on_fullimage st') (30 - Z.quot 6 2) 20 (viewport_width st')
    /\ viewport_x_on_fullimage st' = 14.
Proof.
  assert (HW : image_width_for_zoom Examples.image 2 = Ok 20) by (vm_compute; reflexivity).
  assert (HH : image_height_for_zoom Examples.image 2 = Ok 12) by (vm_compute; reflexivity).
  assert (Hb : match load_image Examples.image (init_state 1 2 6 5) (Some (30, 30)) with
               | Ok s => viewport_width s =? 6 | Err _ => false end = true)
    by (vm_compute; reflexivity).
  destruct (load_image Examples.image (init_state 1 2 6 5) (Some (30, 30))) as [st'|] eqn:El;
    [|discriminate Hb].
  apply Z.eqb_eq in Hb.
  destruct (proj1 (proj2 (proj2 viewport_position_clamped)) Examples.image (init_state 1 2 6 5)
              (Some (30, 30)) st' 20 12 ltac:(cbn; lia) ltac:(cbn; lia) ltac:(cbn; lia)
              HW HH El) as [Cx _].
  cbn [load_target fst init_state viewport_width] in Cx.
  exists st'. split; [reflexivity|]. split; [exact Cx|].
  destruct Cx as [Ex _]. rewrite Ex, Hb. reflexivity.
Defined.


(** ** Scrolling: when the canvas is rebuilt *)

Lemma window_eqb (a b c d a' b' c' d' : Z) :
  ((a =? a') && (b =? b') && (c =? c') && (d =? d')) = true
  <-> (a, b, c, d) = (a', b', c', d').
Proof.
  rewrite !andb_true_iff, !Z.eqb_eq. split.
  - intros [[[-> ->] ->] ->]. reflexivity.
  - intros E. injection E as -> -> -> ->. tauto.
Qed.

(** C2: on a state whose tile window is the one its viewport position asks
    for, whenever [scroll_to(x, y)] returns, it returns [false] exactly when
    the window asked for by the clamped target ([x_to_tile] of it minus
    [extra_tiles], extended by the canvas tile counts) is the current one;
    in particular it returns [false] when the clamped target is the current
    viewport top-left. *)
Theorem scroll_to_false_iff_same_window (im : BigImage) (st : LState)
    (tx ty W H : Z)
    (Hok : window_ok im st)
    (HW : zoomed_image_width st = Some W) (HH : zoomed_image_height st = Some H) :
  match scroll_to im st tx ty with
  | Ok (b, _) =>
      (b = false
       <-> window_of im st (clip_pos tx W (viewport_width st))
             (clip_pos ty H (viewport_height st)) = current_window st)
      /\ ((clip_pos tx W (viewport_width st), clip_pos ty H (viewport_height st))
          = (viewport_x_on_fullimage st, viewport_y_on_fullimage st) -> b = false)
  | Err _ => True
  end.
Proof.
  destruct (scroll_to im st tx ty) as [[b st']|e] eqn:Hs; [|exact I].
  unfold scroll_to in Hs. rewrite HW, HH in Hs.
  cbn [bind not_none] in Hs.
  rewrite !clamp_clip in Hs.
  pose proof (clip_pos_bounds tx W (viewport_width st)) as Bx.
  pose proof (clip_pos_bounds ty H (viewport_height st)) as By.
  set (X := clip_pos tx W (viewport_width st)) in *.
  set (Y := clip_pos ty H (viewport_height st)) in *.
  unfold window_ok in Hok.
  destruct ((viewport_x_on_fullimage st - X =? 0)
            && (viewport_y_on_fullimage st - Y =? 0)) eqn:Ed.
  { injection Hs as <- <-. apply andb_prop in Ed. destruct Ed as [E1 E2].
    apply Z.eqb_eq in E1, E2.
    replace X with (viewport_x_on_fullimage st) by lia.
    replace Y with (viewport_y_on_fullimage st) by lia.
    rewrite Hok. tauto. }
  destruct (X + viewport_width st >? W) eqn:C1;
  destruct (Y + viewport_height st >? H) eqn:C2;
  cbv beta iota in Hs;
  repeat match type of Hs with
         | context [?a <? 0] =>
             let C := fresh "C" in destruct (a <? 0) eqn:C; cbv beta iota in Hs
         end;
  clearbody X Y; zhyps;
  repeat match type of Hs with
         | context [x_to_tile im ?e] =>
             tryif constr_eq e X then fail
             else let Hq := fresh in assert (Hq : e = X) by lia;
                  rewrite (f_equal (x_to_tile im) Hq) in Hs; clear Hq
         | context [y_to_tile im ?e] =>
             tryif constr_eq e Y then fail
             else let Hq := fresh in assert (Hq : e = Y) by lia;
                  rewrite (f_equal (y_to_tile im) Hq) in Hs; clear Hq
         end;
  (destruct (_ && _ && _ && _) eqn:Ew in Hs;
   [ cbn [negb] in Hs; injection Hs as <- _; apply window_eqb in Ew;
     unfold window_of, current_window; rewrite Ew; tauto
   | cbn [negb] in Hs; crush_nb Hs; injection Hs as <- _;
     split;
     [ split; [discriminate|];
       unfold window_of, current_window; intros Hw; rewrite <- window_eqb in Hw;
       congruence
     | intros Hxy; injection Hxy as Hx Hy; apply andb_false_iff in Ed;
       rewrite !Z.eqb_neq in Ed; lia ] ]).
Qed.

Lemma scroll_to_false_iff_same_window_witness :
  match scroll_to Examples.image (Examples.state_at 2) 4 0 with
  | Ok (b, _) =>
      (b = false
       <-> window_of Examples.image (Examples.state_at 2)
             (clip_pos 4 20 (viewport_width (Examples.state_at 2)))
             (clip_pos 0 12 (viewport_height (Examples.state_at 2)))
           = current_window (Examples.state_at 2))
      /\ ((clip_pos 4 20 (viewport_width (Examples.state_at 2)),
           clip_pos 0 12 (viewport_height (Examples.state_at 2)))
          = (viewport_x_on_fullimage (Examples.state_at 2),
             viewport_y_on_fullimage (Examples.state_at 2)) -> b = false)
  | Err _ => True
  end.
Proof.
  apply (scroll_to_false_iff_same_window Examples.image (Examples.state_at 2) 4 0 20 12).
  - vm_compute. reflexivity.
  - vm_compute. reflexivity.
  - vm_compute. reflexivity.
Defined.

(** ** Scrolling: the canvas after a rebuild *)

(** *** numpy slice assignment *)

Lemma setitem2_ok dst a b c d src e f g h r :
  setitem2 dst a b c d src e f g h = Ok r ->
  rows r = rows dst /\ cols r = cols dst /\ chans r = chans dst
  /\ forall i j, px r i j = match setitem2_at dst a b c d src e f g h i j with
                            | Some v => v
                            | None => px dst i j
                            end.
Proof.
  unfold setitem2. destruct (_ && _ && _); [|discriminate].
  intros H. injection H as <-. cbn. repeat split.
Qed.

Lemma norm_index_in i len : 0 <= i <= len -> norm_index i len = i.
Proof. intros H. unfold norm_index. zcases; lia. Qed.

Lemma axis_hit_in len a b slen e f i :
  0 <= a <= b -> b <= len -> 0 <= e <= f -> f <= slen -> b - a = f - e ->
  a <= i < b -> axis_hit len a b slen e f i = Some (e + (i - a)).
Proof.
  intros Ha Hb He Hf Hl Hi. unfold axis_hit, slice_len.
  rewrite !norm_index_in by lia.
  replace ((a <=? i) && (i <? a + Z.max 0 (b - a))) with true
    by (symmetry; apply andb_true_iff; split; [apply Z.leb_le | apply Z.ltb_lt]; lia).
  f_equal. zcases; lia.
Qed.

Lemma axis_hit_out len a b slen e f i :
  0 <= a <= b -> b <= len -> ~ (a <= i < b) ->
  axis_hit len a b slen e f i = None.
Proof.
  intros Ha Hb Hi. unfold axis_hit, slice_len.
  rewrite !(norm_index_in a), !(norm_index_in b) by lia.
  replace ((a <=? i) && (i <? a + Z.max 0 (b - a))) with false; [reflexivity|].
  symmetry. apply andb_false_iff.
  destruct (Z.le_gt_cases a i); [right; apply Z.ltb_ge | left; apply Z.leb_gt]; lia.
Qed.

(** *** Loops *)

Lemma in_zrange a b x : In x (zrange a b) <-> a <= x < b.
Proof.
  unfold zrange. rewrite in_map_iff. split.
  - intros [k [<- Hk]]. apply in_seq in Hk. lia.
  - intros Hx. exists (Z.to_nat (x - a)). split; [lia|]. apply in_seq. lia.
Qed.

Lemma NoDup_zrange a b : NoDup (zrange a b).
Proof.
  unfold zrange. apply NoDup_map_NoDup_ForallPairs; [|apply seq_NoDup].
  intros k k' _ _ E. lia.
Qed.

Section FoldM.
Context {A B : Type} (f : A -> B -> res A) (Q P : A -> Prop).

Lemma foldM_inv l acc r :
  foldM f l acc = Ok r -> Q acc ->
  (forall a x a', In x l -> Q a -> f a x = Ok a' -> Q a') -> Q r.
Proof.
  revert acc. induction l as [|x l IH]; cbn; intros acc Hf Hq Hstep.
  - injection Hf as <-. exact Hq.
  - destruct (f acc x) as [a|e] eqn:Ef; cbn in Hf; [|discriminate].
    apply (IH a Hf); [apply (Hstep acc x a); auto | ].
    intros. eapply Hstep; eauto.
Qed.

Lemma foldM_keep l acc r :
  foldM f l acc = Ok r -> Q acc -> P acc ->
  (forall a x a', In x l -> Q a -> f a x = Ok a' -> Q a') ->
  (forall a x a', In x l -> Q a -> P a -> f a x = Ok a' -> P a') -> P r.
Proof.
  revert acc. induction l as [|x l IH]; cbn; intros acc Hf Hq Hp Hq' Hp'.
  - injection Hf as <-. exact Hp.
  - destruct (f acc x) as [a|e] eqn:Ef; cbn in Hf; [|discriminate].
    apply (IH a Hf); eauto.
Qed.

Lemma foldM_writer l acc r x0 :
  foldM f l acc = Ok r -> In x0 l -> NoDup l -> Q acc ->
  (forall a x a', In x l -> Q a -> f a x = Ok a' -> Q a') ->
  (forall a a', Q a -> f a x0 = Ok a' -> P a') ->
  (forall a x a', In x l -> x <> x0 -> Q a -> P a -> f a x = Ok a' -> P a') ->
  P r.
Proof.
  revert acc. induction l as [|x l IH]; cbn; intros acc Hf Hin Hnd Hq Hq' Hw Hp.
  - contradiction.
  - destruct (f acc x) as [a|e] eqn:Ef; cbn in Hf; [|discriminate].
    inversion Hnd as [|? ? Hx Hnd']; subst.
    destruct Hin as [<- | Hin].
    + apply (foldM_keep l a r Hf); eauto.
      * intros a0 y a' Hy Hq0 Hp0 Ha'. eapply Hp; eauto.
        intros <-. contradiction.
    + apply (IH a Hf Hin Hnd'); eauto.
Qed.

End FoldM.

(** *** The loops of [_load_tiles] with [init_matrix = False] *)

Section Steps.
Variable im : BigImage.
Variables (zoom txs cw ch : Z) (skip : bool) (otxs otys otxe otye : Z).
Variables (nta tiley top bottom ypos : Z).

Lemma tile_step_cases acc tilex acc' :
  tile_step im zoom txs cw ch false skip otxs otys otxe otye nta tiley top bottom
    ypos acc tilex = Ok acc' ->
  (acc' = acc /\ (tilex < 0 \/ nta <= tilex
                  \/ skipped skip otxs otys otxe otye tilex tiley = true))
  \/ (0 <= tilex < nta /\ skipped skip otxs otys otxe otye tilex tiley = false
      /\ exists r buf p p',
           right_overlap im tilex zoom = Ok r /\ load_tile im tilex tiley zoom = Ok buf
           /\ fst acc = Some p /\ acc' = (Some p', snd acc)
           /\ setitem2 p ypos (ypos + (rows buf - bottom) - top)
                (tile_width im * (tilex - txs))
                (tile_width im * (tilex - txs) + (cols buf - r) - left_overlap im tilex)
                buf top (rows buf - bottom) (left_overlap im tilex) (cols buf - r)
              = Ok p').
Proof.
  unfold tile_step. destruct acc as [pix first]. intros H.
  destruct ((tilex <? 0) || (tilex >=? nta)) eqn:Er.
  { left. injection H as <-. split; [reflexivity|].
    apply orb_true_iff in Er. rewrite Z.geb_leb, Z.ltb_lt, Z.leb_le in Er. lia. }
  unfold skipped. destruct (skip && _ && _ && _ && _) eqn:Es.
  { left. injection H as <-. auto. }
  right. split.
  { apply orb_false_iff in Er. destruct Er as [E1 E2].
    rewrite Z.geb_leb in E2. apply Z.ltb_ge in E1. apply Z.leb_gt in E2. lia. }
  split; [reflexivity|].
  destruct (right_overlap im tilex zoom) as [r|e] eqn:Hr; cbn [bind] in H; [|discriminate].
  destruct (load_tile im tilex tiley zoom) as [buf|e] eqn:Hb; cbn [bind] in H; [|discriminate].
  cbn [andb] in H.
  destruct pix as [p|]; cbn [bind not_none] in H; [|discriminate].
  destruct (setitem2 _ _ _ _ _ _ _ _ _ _) as [p'|e] eqn:Hp; cbn [bind] in H; [|discriminate].
  injection H as <-. exists r, buf, p, p'. repeat split; auto.
Qed.

Hypothesis Hfit : forall tilex buf r,
  0 <= tilex < nta -> load_tile im tilex tiley zoom = Ok buf ->
  right_overlap im tilex zoom = Ok r ->
  0 <= left_overlap im tilex /\ 0 <= r
  /\ left_overlap im tilex + r <= cols buf <= tile_width im + left_overlap im tilex + r
  /\ 0 <= top /\ 0 <= bottom
  /\ top + bottom <= rows buf <= tile_height im + top + bottom.
Hypothesis Hy : 0 <= ypos /\ ypos + tile_height im <= ch.

Lemma tile_step_canvas acc tilex acc' :
  tile_step im zoom txs cw ch false skip otxs otys otxe otye nta tiley top bottom
    ypos acc tilex = Ok acc' ->
  canvas_ok ch cw acc -> canvas_ok ch cw acc'.
Proof.
  intros H Hc. apply tile_step_cases in H.
  destruct H as [[-> _] | (_ & _ & r & buf & p & p' & _ & _ & Hp & -> & Hs)]; [exact Hc|].
  unfold canvas_ok in *. rewrite Hp in Hc. cbn.
  apply setitem2_ok in Hs. lia.
Qed.

Lemma tile_step_keep acc tilex acc' I J v :
  tile_step im zoom txs cw ch false skip otxs otys otxe otye nta tiley top bottom
    ypos acc tilex = Ok acc' ->
  canvas_ok ch cw acc ->
  0 <= tile_width im * (tilex - txs) ->
  tile_width im * (tilex - txs) + tile_width im <= cw ->
  ~ (ypos <= I < ypos + tile_height im)
  \/ ~ (tile_width im * (tilex - txs) <= J < tile_width im * (tilex - txs) + tile_width im)
  \/ skipped skip otxs otys otxe otye tilex tiley = true ->
  pixel_is I J v acc -> pixel_is I J v acc'.
Proof.
  intros H Hc Hx0 Hx1 Hout Hv. apply tile_step_cases in H.
  destruct H as [[-> _] | (Hrange & Hsk & r & buf & p & p' & Hr & Hb & Hp & -> & Hs)]; [exact Hv|].
  destruct (Hfit tilex buf r Hrange Hb Hr) as (Hl & Hr0 & Hcols & Ht & Hb0 & Hrows).
  unfold canvas_ok, pixel_is in *. rewrite Hp in Hc, Hv. cbn.
  destruct Hc as [Hrw Hcl].
  apply setitem2_ok in Hs. destruct Hs as (_ & _ & _ & Hpx). rewrite Hpx.
  unfold setitem2_at. rewrite Hrw, Hcl.
  destruct Hout as [Hout | [Hout | Hout]]; [| |congruence].
  - rewrite (axis_hit_out ch) by lia. exact Hv.
  - rewrite (axis_hit_out cw (tile_width im * (tilex - txs))) by lia.
    destruct (axis_hit _ _ _ _ _ _ I); exact Hv.
Qed.

Lemma tile_step_write acc tilex acc' buf r i j :
  tile_step im zoom txs cw ch false skip otxs otys otxe otye nta tiley top bottom
    ypos acc tilex = Ok acc' ->
  canvas_ok ch cw acc ->
  0 <= tile_width im * (tilex - txs) ->
  tile_width im * (tilex - txs) + tile_width im <= cw ->
  0 <= tilex < nta -> skipped skip otxs otys otxe otye tilex tiley = false ->
  load_tile im tilex tiley zoom = Ok buf -> right_overlap im tilex zoom = Ok r ->
  0 <= i < rows buf - top - bottom -> 0 <= j < cols buf - left_overlap im tilex - r ->
  pixel_is (ypos + i) (tile_width im * (tilex - txs) + j)
    (px buf (top + i) (left_overlap im tilex + j)) acc'.
Proof.
  intros H Hc Hx0 Hx1 Hrange Hsk Hb Hr Hi Hj. apply tile_step_cases in H.
  destruct H as [[-> Hno] | (_ & _ & r' & buf' & p & p' & Hr' & Hb' & Hp & -> & Hs)].
  { exfalso. destruct Hno as [Hno | [Hno | Hno]]; [lia | lia | congruence]. }
  rewrite Hr in Hr'. injection Hr' as <-. rewrite Hb in Hb'. injection Hb' as <-.
  destruct (Hfit tilex buf r Hrange Hb Hr) as (Hl & Hr0 & Hcols & Ht & Hb0 & Hrows).
  unfold canvas_ok, pixel_is in *. rewrite Hp in Hc. cbn.
  destruct Hc as [Hrw Hcl].
  apply setitem2_ok in Hs. destruct Hs as (_ & _ & _ & Hpx). rewrite Hpx.
  unfold setitem2_at. rewrite Hrw, Hcl.
  rewrite (axis_hit_in ch) by lia. rewrite (axis_hit_in cw) by lia.
  f_equal; lia.
Qed.

End Steps.

Lemma band_unique t a b i :
  0 < t -> 0 <= i < t -> t * a <= t * b + i < t * a + t -> a = b.
Proof.
  intros Ht Hi Hb. destruct (Z.lt_trichotomy a b) as [H|[H|H]]; [|exact H|]; exfalso.
  - assert (t * (a + 1) <= t * b) by (apply Z.mul_le_mono_nonneg_l; lia). lia.
  - assert (t * (b + 1) <= t * a) by (apply Z.mul_le_mono_nonneg_l; lia). lia.
Qed.

Section Rows.
Variable im : BigImage.
Variables (zoom txs tys txe tye cw ch : Z) (skip : bool) (otxs otys otxe otye : Z).
Variables (nta ntd : Z).
Hypothesis Hnta : num_tiles_across im zoom = Ok nta.
Hypothesis Hntd : num_tiles_down im zoom = Ok ntd.
Hypothesis Hfit : tiles_fit im zoom.
Hypothesis Hcw : cw = tile_width im * (txe - txs).
Hypothesis Hch : ch = tile_height im * (tye - tys).
Hypothesis Htw : 0 < tile_width im.
Hypothesis Hth : 0 < tile_height im.

Lemma row_fit tiley b :
  0 <= tiley < ntd -> bottom_overlap im tiley zoom = Ok b ->
  forall tilex buf r,
  0 <= tilex < nta -> load_tile im tilex tiley zoom = Ok buf ->
  right_overlap im tilex zoom = Ok r ->
  0 <= left_overlap im tilex /\ 0 <= r
  /\ left_overlap im tilex + r <= cols buf <= tile_width im + left_overlap im tilex + r
  /\ 0 <= top_overlap im tiley /\ 0 <= b
  /\ top_overlap im tiley + b <= rows buf <= tile_height im + top_overlap im tiley + b.
Proof. intros Hy Hb tilex buf r Hx Hl Hr. eapply Hfit; eauto. Qed.

Lemma row_step_cases acc tiley acc' :
  row_step im zoom txs tys txe cw ch false skip otxs otys otxe otye nta ntd acc tiley
  = Ok acc' ->
  (acc' = acc /\ (tiley < 0 \/ ntd <= tiley))
  \/ (0 <= tiley < ntd /\ exists b, bottom_overlap im tiley zoom = Ok b
      /\ foldM (tile_step im zoom txs cw ch false skip otxs otys otxe otye nta tiley
                  (top_overlap im tiley) b (tile_height im * (tiley - tys)))
               (zrange txs txe) acc = Ok acc').
Proof.
  unfold row_step. intros H.
  destruct ((tiley <? 0) || (tiley >=? ntd)) eqn:Er.
  { left. injection H as <-. split; [reflexivity|].
    apply orb_true_iff in Er. rewrite Z.geb_leb, Z.ltb_lt, Z.leb_le in Er. lia. }
  right. split.
  { apply orb_false_iff in Er. rewrite Z.geb_leb, Z.ltb_ge, Z.leb_gt in Er. lia. }
  destruct (bottom_overlap im tiley zoom) as [b|e]; cbn [bind] in H; [|discriminate].
  exists b. split; [reflexivity | exact H].
Qed.

Lemma row_step_canvas acc tiley acc' :
  row_step im zoom txs tys txe cw ch false skip otxs otys otxe otye nta ntd acc tiley
  = Ok acc' -> canvas_ok ch cw acc -> canvas_ok ch cw acc'.
Proof.
  intros H Hc. apply row_step_cases in H.
  destruct H as [[-> _] | (_ & b & _ & H)]; [exact Hc|].
  apply (foldM_inv _ _ _ _ _ H Hc).
  intros a x a' _ Ha Hs. exact (tile_step_canvas _ _ _ _ _ _ _ _ _ _ _ _ _ _ _ _ _ _ Hs Ha).
Qed.

Lemma row_step_keep acc tiley acc' I J v :
  row_step im zoom txs tys txe cw ch false skip otxs otys otxe otye nta ntd acc tiley
  = Ok acc' -> tys <= tiley < tye ->
  canvas_ok ch cw acc ->
  (forall tilex, txs <= tilex < txe ->
     ~ (tile_height im * (tiley - tys) <= I < tile_height im * (tiley - tys) + tile_height im)
     \/ ~ (tile_width im * (tilex - txs) <= J < tile_width im * (tilex - txs) + tile_width im)
     \/ skipped skip otxs otys otxe otye tilex tiley = true) ->
  pixel_is I J v acc -> pixel_is I J v acc'.
Proof.
  intros H Hy Hc Hout Hv. apply row_step_cases in H.
  destruct H as [[-> _] | (Hy' & b & Hb & H)]; [exact Hv|].
  pose proof (row_fit tiley b Hy' Hb) as Hf.
  assert (Hyb : 0 <= tile_height im * (tiley - tys)
                /\ tile_height im * (tiley - tys) + tile_height im <= ch).
  { split; [|rewrite Hch; replace (tye - tys) with ((tiley - tys) + 1 + (tye - tiley - 1)) by lia]; nia. }
  apply (foldM_keep _ _ _ _ _ _ H Hc Hv).
  - intros a x a' _ Ha Hs. exact (tile_step_canvas _ _ _ _ _ _ _ _ _ _ _ _ _ _ _ _ _ _ Hs Ha).
  - intros a x a' Hx Ha Hva Hs. apply in_zrange in Hx.
    apply (tile_step_keep im zoom txs cw ch skip otxs otys otxe otye nta tiley
              (top_overlap im tiley) b (tile_height im * (tiley - tys)) Hf Hyb
              a x a' I J v Hs Ha); [nia | rewrite Hcw; nia | apply Hout; lia | exact Hva].
Qed.

Lemma row_step_write acc tiley acc' tx0 buf r b i j :
  row_step im zoom txs tys txe cw ch false skip otxs otys otxe otye nta ntd acc tiley
  = Ok acc' -> tys <= tiley < tye -> 0 <= tiley < ntd ->
  canvas_ok ch cw acc ->
  txs <= tx0 < txe -> 0 <= tx0 < nta ->
  skipped skip otxs otys otxe otye tx0 tiley = false ->
  load_tile im tx0 tiley zoom = Ok buf -> right_overlap im tx0 zoom = Ok r ->
  bottom_overlap im tiley zoom = Ok b ->
  0 <= i < rows buf - top_overlap im tiley - b ->
  0 <= j < cols buf - left_overlap im tx0 - r ->
  pixel_is (tile_height im * (tiley - tys) + i) (tile_width im * (tx0 - txs) + j)
    (px buf (top_overlap im tiley + i) (left_overlap im tx0 + j)) acc'.
Proof.
  intros H Hy Hy' Hc Hx Hx' Hsk Hbuf Hr Hb Hi Hj. apply row_step_cases in H.
  destruct H as [[-> Hno] | (_ & b' & Hb' & H)]; [lia|].
  rewrite Hb in Hb'. injection Hb' as <-.
  destruct (row_fit tiley b Hy' Hb tx0 buf r Hx' Hbuf Hr) as (Hl & Hr0 & Hcols & _).
  assert (Hyb : 0 <= tile_height im * (tiley - tys)
                /\ tile_height im * (tiley - tys) + tile_height im <= ch).
  { split; [|rewrite Hch; replace (tye - tys) with ((tiley - tys) + 1 + (tye - tiley - 1)) by lia]; nia. }
  pose proof (row_fit tiley b Hy' Hb) as Hf.
  apply (foldM_writer _ (canvas_ok ch cw) _ _ _ _ tx0 H).
  - apply in_zrange. lia.
  - apply NoDup_zrange.
  - exact Hc.
  - intros a x a' _ Ha Hs. exact (tile_step_canvas _ _ _ _ _ _ _ _ _ _ _ _ _ _ _ _ _ _ Hs Ha).
  - intros a a' Ha Hs.
    apply (tile_step_write im zoom txs cw ch skip otxs otys otxe otye nta tiley
              (top_overlap im tiley) b (tile_height im * (tiley - tys)) Hf Hyb
              a tx0 a' buf r i j Hs Ha); auto; [nia | rewrite Hcw; nia].
  - intros a x a' Hx0 Hne Ha Hva Hs. apply in_zrange in Hx0.
    apply (tile_step_keep im zoom txs cw ch skip otxs otys otxe otye nta tiley
              (top_overlap im tiley) b (tile_height im * (tiley - tys)) Hf Hyb
              a x a' _ _ _ Hs Ha); [nia | rewrite Hcw; nia | | exact Hva].
    right. left. intros Hin. apply Hne.
    assert (x - txs = tx0 - txs) by (apply (band_unique (tile_width im) _ _ j); lia). lia.
Qed.
End Rows.

Section LoadTiles.
Variable im : BigImage.
Variables (zoom txs tys txe tye cw ch : Z) (skip : bool) (otxs otys otxe otye : Z).
Hypothesis Hfit : tiles_fit im zoom.
Hypothesis Hcw : cw = tile_width im * (txe - txs).
Hypothesis Hch : ch = tile_height im * (tye - tys).
Hypothesis Htw : 0 < tile_width im.
Hypothesis Hth : 0 < tile_height im.

Lemma load_tiles_cases p pix :
  load_tiles im zoom txs tys txe tye cw ch (Some p) false skip otxs otys otxe otye
  = Ok pix ->
  exists nta ntd acc,
    num_tiles_across im zoom = Ok nta /\ num_tiles_down im zoom = Ok ntd
    /\ foldM (row_step im zoom txs tys txe cw ch false skip otxs otys otxe otye nta ntd)
         (zrange tys tye) (Some p, true) = Ok acc
    /\ pix = fst acc.
Proof.
  unfold load_tiles. intros H.
  destruct (num_tiles_across im zoom) as [nta|e]; cbn [bind] in H; [|discriminate].
  destruct (num_tiles_down im zoom) as [ntd|e]; cbn [bind] in H; [|discriminate].
  destruct (foldM _ _ _) as [[pix' f]|e] eqn:Hf; cbn [bind] in H; [|discriminate].
  injection H as <-. exists nta, ntd, (pix', f). auto.
Qed.

Lemma load_tiles_keep p pix I J :
  load_tiles im zoom txs tys txe tye cw ch (Some p) false skip otxs otys otxe otye
  = Ok pix ->
  rows p = ch -> cols p = cw ->
  (forall tilex tiley, txs <= tilex < txe -> tys <= tiley < tye ->
     ~ (tile_height im * (tiley - tys) <= I < tile_height im * (tiley - tys) + tile_height im)
     \/ ~ (tile_width im * (tilex - txs) <= J < tile_width im * (tilex - txs) + tile_width im)
     \/ skipped skip otxs otys otxe otye tilex tiley = true) ->
  exists p'', pix = Some p'' /\ rows p'' = ch /\ cols p'' = cw /\ px p'' I J = px p I J.
Proof.
  intros H Hr Hc Hout.
  destruct (load_tiles_cases p pix H) as (nta & ntd & acc & Hnta & Hntd & Hf & ->).
  assert (Hq : canvas_ok ch cw acc).
  { apply (foldM_inv _ _ _ _ _ Hf); [cbn; auto|].
    intros a x a' _ Ha Hs. eapply row_step_canvas; [exact Hs | exact Ha]. }
  assert (Hp : pixel_is I J (px p I J) acc).
  { apply (foldM_keep _ (canvas_ok ch cw) _ _ _ _ Hf); [cbn; auto | reflexivity | |].
    - intros a x a' _ Ha Hs. eapply row_step_canvas; [exact Hs | exact Ha].
    - intros a x a' Hx Ha Hva Hs. apply in_zrange in Hx.
      apply (row_step_keep im zoom txs tys txe tye cw ch skip otxs otys otxe otye nta ntd
               Hnta Hntd Hfit Hcw Hch Htw Hth a x a' I J _ Hs); auto. }
  unfold canvas_ok, pixel_is in *. destruct (fst acc) as [p''|]; [|contradiction].
  exists p''. destruct Hq. auto.
Qed.

Lemma load_tiles_write p pix tx0 ty0 nta ntd buf r b i j :
  load_tiles im zoom txs tys txe tye cw ch (Some p) false skip otxs otys otxe otye
  = Ok pix ->
  rows p = ch -> cols p = cw ->
  txs <= tx0 < txe -> tys <= ty0 < tye ->
  num_tiles_across im zoom = Ok nta -> num_tiles_down im zoom = Ok ntd ->
  0 <= tx0 < nta -> 0 <= ty0 < ntd ->
  skipped skip otxs otys otxe otye tx0 ty0 = false ->
  load_tile im tx0 ty0 zoom = Ok buf -> right_overlap im tx0 zoom = Ok r ->
  bottom_overlap im ty0 zoom = Ok b ->
  0 <= i < rows buf - top_overlap im ty0 - b ->
  0 <= j < cols buf - left_overlap im tx0 - r ->
  exists p'', pix = Some p''
    /\ px p'' (tile_height im * (ty0 - tys) + i) (tile_width im * (tx0 - txs) + j)
       = px buf (top_overlap im ty0 + i) (left_overlap im tx0 + j).
Proof.
  intros H Hr Hc Hx Hy Hnta Hntd Hx' Hy' Hsk Hbuf Hro Hb Hi Hj.
  destruct (load_tiles_cases p pix H) as (nta' & ntd' & acc & Hnta' & Hntd' & Hf & ->).
  rewrite Hnta in Hnta'. injection Hnta' as <-.
  rewrite Hntd in Hntd'. injection Hntd' as <-.
  destruct (Hfit tx0 ty0 nta ntd buf r b Hnta Hntd Hx' Hy' Hbuf Hro Hb)
    as (_ & _ & _ & _ & _ & Hrows).
  assert (Hp : pixel_is (tile_height im * (ty0 - tys) + i) (tile_width im * (tx0 - txs) + j)
                 (px buf (top_overlap im ty0 + i) (left_overlap im tx0 + j)) acc).
  { apply (foldM_writer _ (canvas_ok ch cw) _ _ _ _ ty0 Hf).
    - apply in_zrange. lia.
    - apply NoDup_zrange.
    - cbn. auto.
    - intros a x a' _ Ha Hs. eapply row_step_canvas; [exact Hs | exact Ha].
    - intros a a' Ha Hs.
      apply (row_step_write im zoom txs tys txe tye cw ch skip otxs otys otxe otye nta ntd
               Hnta Hntd Hfit Hcw Hch Htw Hth a ty0 a' tx0 buf r b i j Hs); auto.
    - intros a x a' Hx0 Hne Ha Hva Hs. apply in_zrange in Hx0.
      apply (row_step_keep im zoom txs tys txe tye cw ch skip otxs otys otxe otye nta ntd
               Hnta Hntd Hfit Hcw Hch Htw Hth a x a' _ _ _ Hs); auto.
      intros tilex _. left. intros Hin. apply Hne.
      assert (x - tys = ty0 - tys)
        by (apply (band_unique (tile_height im) _ _ i); lia). lia. }
  unfold pixel_is in Hp. destruct (fst acc) as [p''|]; [|contradiction].
  exists p''. auto.
Qed.
End LoadTiles.

(** *** What [scroll_to] does when it returns [true] *)

Lemma gt_sub_max a b : (if a >? b then a - b else 0) = Z.max 0 (a - b).
Proof. zcases; lia. Qed.
Lemma lt_sub_max a b : (if a <? b then b - a else 0) = Z.max 0 (b - a).
Proof. zcases; lia. Qed.

Lemma shift_pair {B} (t M : Z) (x y : B) a b :
  (if Z.max 0 M >? 0 then (t * Z.max 0 M, x) else (0, y)) = (a, b) -> a = t * Z.max 0 M.
Proof. zcases; intros E; injection E; lia. Qed.

(** A [scroll_to] that returns [true] took the old canvas, shifted it in
    place by whole tiles and loaded the tiles missing from the old window
    over it, with the canvas and the tile counts kept. *)
Lemma scroll_to_true_inv im st tx ty st' :
  scroll_to im st tx ty = Ok (true, st') ->
  let tw := tile_width im in
  let th := tile_height im in
  let ER := Z.max 0 (tile_xstart st' - tile_xstart st) in
  let EL := Z.max 0 (tile_xend st - tile_xend st') in
  let EB := Z.max 0 (tile_ystart st' - tile_ystart st) in
  let ET := Z.max 0 (tile_yend st - tile_yend st') in
  let cw := canvas_width st in
  let ch := canvas_height st in
  exists p p', pixels st = Some p
  /\ setitem2 p (th * ET) (th * ET + (ch - th * (ET + EB)))
       (tw * EL) (tw * EL + (cw - tw * (EL + ER)))
       p (th * EB) (th * EB + (ch - th * (ET + EB)))
       (tw * ER) (tw * ER + (cw - tw * (EL + ER))) = Ok p'
  /\ load_tiles im (zoom st) (tile_xstart st') (tile_ystart st') (tile_xend st')
       (tile_yend st') cw ch (Some p') false true
       (tile_xstart st) (tile_ystart st) (tile_xend st) (tile_yend st) = Ok (pixels st')
  /\ tile_xend st' = tile_xstart st' + tiles_across_in_canvas st
  /\ tile_yend st' = tile_ystart st' + tiles_down_in_canvas st
  /\ canvas_width st' = cw /\ canvas_height st' = ch /\ zoom st' = zoom st
  /\ tiles_across_in_canvas st' = tiles_across_in_canvas st
  /\ tiles_down_in_canvas st' = tiles_down_in_canvas st.
Proof.
  intros Hs. unfold scroll_to in Hs.
  destruct (zoomed_image_width st) as [W|]; cbn [bind not_none] in Hs; [|discriminate].
  destruct (zoomed_image_height st) as [H|]; cbn [bind not_none] in Hs; [|discriminate].
  destruct (_ && _) eqn:Ed in Hs; [discriminate|].
  crush_nb Hs.
  all: destruct (negb _) in Hs; try discriminate.
  injection Hs as <-.
  cbn zeta. cbn [tile_xstart tile_ystart tile_xend tile_yend canvas_width canvas_height
                 zoom tiles_across_in_canvas tiles_down_in_canvas pixels].
  match goal with E : not_none (pixels st) = Ok ?p |- _ =>
    assert (Hp : pixels st = Some p) by (destruct (pixels st); cbn in E; congruence) end.
  match goal with E : setitem2 _ _ _ _ _ _ _ _ _ _ = Ok ?p' |- _ => exists a, p' end.
  split; [exact Hp|].
  split; [|split; [eassumption|repeat split]].
  rewrite ?gt_sub_max, ?lt_sub_max in *.
  repeat match goal with E : (if _ then _ else _) = (_, _) |- _ => apply shift_pair in E; subst end.
  match goal with E : setitem2 _ _ _ _ _ _ _ _ _ _ = Ok _ |- _ => rewrite <- E end.
  f_equal; lia.
Qed.

(** One axis of the in-place shift of [scroll_to]. *)
Lemma shift_axis (t n o nw len k i : Z) :
  0 < t -> 0 <= n -> len = n * t ->
  o <= k < o + n -> nw <= k < nw + n -> 0 <= i < t ->
  let hi := Z.max 0 (nw - o) in
  let lo := Z.max 0 ((o + n) - (nw + n)) in
  axis_hit len (t * lo) (t * lo + (len - t * (lo + hi))) len
    (t * hi) (t * hi + (len - t * (lo + hi))) (t * (k - nw) + i)
  = Some (t * (k - o) + i).
Proof.
  intros Ht Hn Hl Ho Hw Hi. cbv zeta.
  destruct (Z.le_ge_cases o nw).
  - replace (Z.max 0 (nw - o)) with (nw - o) by lia.
    replace (Z.max 0 (o + n - (nw + n))) with 0 by lia.
    rewrite axis_hit_in; [f_equal; nia|nia..].
  - replace (Z.max 0 (nw - o)) with 0 by lia.
    replace (Z.max 0 (o + n - (nw + n))) with (o - nw) by lia.
    rewrite axis_hit_in; [f_equal; nia|nia..].
Qed.

(** *** DeepZoom tiles fit their cells *)

Lemma tiles_for_bounds w t :
  0 < t -> 0 <= w ->
  1 <= tiles_for w t /\ (tiles_for w t - 1) * t <= w
  /\ (0 < w -> (tiles_for w t - 1) * t < w).
Proof.
  intros Ht Hw. unfold tiles_for, py_ceil_div.
  pose proof (Z.div_mod (- w) t ltac:(lia)).
  pose proof (Z.mod_pos_bound (- w) t Ht).
  zcases; nia.
Qed.

(** One axis of a DeepZoom tile: the width [load_tile] checks is the
    overlaps plus at most one tile. *)
Lemma dz_axis_fit (T ov w tx : Z) :
  0 < T -> 0 <= ov <= T -> 0 <= w -> 0 <= tx < tiles_for w T ->
  let l := if tx =? 0 then 0 else ov in
  let r := if tx =? tiles_for w T - 1 then 0 else ov in
  let e := tx * T - l + T + l + r in
  let c := (if e >? w then w else e) - (tx * T - l) in
  0 <= l /\ 0 <= r /\ l + r <= c <= T + l + r.
Proof.
  intros HT Hov Hw Htx. cbv zeta.
  destruct (tiles_for_bounds w T HT Hw) as (H1 & H2 & H3).
  assert (tx * T <= (tiles_for w T - 1) * T) by nia.
  assert (tx < tiles_for w T - 1 -> (tx + 1) * T <= (tiles_for w T - 1) * T) by nia.
  zcases; nia.
Qed.

(** A DeepZoom pyramid with a positive tile size, an overlap of at most
    one tile and level sizes that are not negative satisfies [tiles_fit]. *)
Lemma dz_tiles_fit m rd zoom :
  0 < dz_tile_width m -> 0 <= dz_overlap m <= dz_tile_width m ->
  (forall w, dict_get zoom (dz_zoom_to_width m) = Some w -> 0 <= w) ->
  (forall h, dict_get zoom (dz_zoom_to_height m) = Some h -> 0 <= h) ->
  tiles_fit (dz_image m rd) zoom.
Proof.
  intros HT Hov Hw Hh tx ty nta ntd buf r b Hnta Hntd Htx Hty Hl Hr Hb.
  unfold num_tiles_across, num_tiles_down in Hnta, Hntd.
  cbn [dz_image image_width_for_zoom image_height_for_zoom tile_width tile_height
       load_tile right_overlap bottom_overlap left_overlap top_overlap] in *.
  unfold dz_load_tile, dz_tile_end_x_plus_one, dz_tile_end_y_plus_one,
    dz_right_overlap, dz_bottom_overlap, dz_image_width_for_zoom,
    dz_image_height_for_zoom in Hnta, Hntd, Hr, Hb, Hl.
  destruct (dict_get zoom (dz_zoom_to_width m)) as [w|] eqn:Ew; [|discriminate].
  destruct (dict_get zoom (dz_zoom_to_height m)) as [h|] eqn:Eh; [|discriminate].
  cbn [bind] in Hnta, Hntd, Hr, Hb, Hl.
  injection Hnta as <-. injection Hntd as <-. injection Hr as <-. injection Hb as <-.
  specialize (Hw w eq_refl). specialize (Hh h eq_refl).
  destruct (rd tx ty zoom) as [img|]; [|discriminate].
  destruct (_ || _) eqn:Ec in Hl; [discriminate|]. injection Hl as <-.
  apply orb_false_iff in Ec. destruct Ec as [Ec1 Ec2].
  apply negb_false_iff, Z.eqb_eq in Ec1, Ec2.
  unfold dz_tile_start, dz_left_overlap, dz_top_overlap in *. cbn [andb] in Ec1, Ec2.
  pose proof (dz_axis_fit _ _ _ tx HT Hov Hw Htx) as Fx.
  pose proof (dz_axis_fit _ _ _ ty HT Hov Hh Hty) as Fy.
  cbv zeta in Fx, Fy. rewrite Ec1, Ec2. tauto.
Qed.

(** *** The canvas after [scroll_to] *)

Lemma skipped_in otxs otys otxe otye tx ty :
  otxs <= tx < otxe -> otys <= ty < otye ->
  skipped true otxs otys otxe otye tx ty = true.
Proof.
  intros Hx Hy. unfold skipped. rewrite Z.geb_leb, Z.geb_leb.
  repeat rewrite andb_true_iff. rewrite Z.leb_le, Z.leb_le, Z.ltb_lt, Z.ltb_lt. lia.
Qed.

Lemma skipped_out otxs otys otxe otye tx ty :
  ~ (otxs <= tx < otxe /\ otys <= ty < otye) ->
  skipped true otxs otys otxe otye tx ty = false.
Proof.
  intros Hn. unfold skipped. rewrite Z.geb_leb, Z.geb_leb.
  destruct (Z.leb_spec otys ty), (Z.ltb_spec ty otye), (Z.leb_spec otxs tx),
    (Z.ltb_spec tx otxe); cbn; auto; lia.
Qed.

(** C1: on a loaded image whose tiles fit their cells, when [scroll_to]
    returns [true] the canvas cell of every tile that is in both the old and
    the new tile window holds, pixel for pixel, what the old canvas held in
    that tile's old cell (the in-place shift by whole tiles, no reload), and
    the cell of every tile of the image that is new in the window holds the
    pixels of that tile as [load_tile] returns them, overlaps cut off. *)
Theorem scroll_to_keeps_and_loads (im : BigImage) (st : LState) (tx ty : Z)
    (Htw : 0 < tile_width im) (Hth : 0 < tile_height im)
    (Hfit : tiles_fit im (zoom st)) (Hld : loaded im st) :
  match scroll_to im st tx ty with
  | Ok (true, st') =>
      exists p p', pixels st = Some p /\ pixels st' = Some p'
      /\ (forall tx' ty' i j,
            in_window st tx' ty' -> in_window st' tx' ty' ->
            0 <= i < tile_height im -> 0 <= j < tile_width im ->
            px p' (cell_y im st' ty' + i) (cell_x im st' tx' + j)
            = px p (cell_y im st ty' + i) (cell_x im st tx' + j))
      /\ (forall tx' ty' nta ntd buf r b i j,
            in_window st' tx' ty' -> ~ in_window st tx' ty' ->
            num_tiles_across im (zoom st) = Ok nta ->
            num_tiles_down im (zoom st) = Ok ntd ->
            0 <= tx' < nta -> 0 <= ty' < ntd ->
            load_tile im tx' ty' (zoom st) = Ok buf ->
            right_overlap im tx' (zoom st) = Ok r ->
            bottom_overlap im ty' (zoom st) = Ok b ->
            0 <= i < rows buf - top_overlap im ty' - b ->
            0 <= j < cols buf - left_overlap im tx' - r ->
            px p' (cell_y im st' ty' + i) (cell_x im st' tx' + j)
            = px buf (top_overlap im ty' + i) (left_overlap im tx' + j))
  | _ => True
  end.
Proof.
  destruct (scroll_to im st tx ty) as [[[|] st']|] eqn:Hs; try exact I.
  apply scroll_to_true_inv in Hs. cbv zeta in Hs.
  destruct Hs as (p & p1 & Hp & Hset & Hlt & Hxe & Hye & Hcw & Hch & Hz & Hnac & Hndc).
  destruct Hld as (Hok & Hnac0 & Hndc0 & Hcw0 & Hch0 & Hpx).
  unfold window_ok, current_window, window_of in Hok.
  injection Hok as Hxs0 Hys0 Hxe0 Hye0.
  rewrite Hp in Hpx.
  destruct (zoomed_image_width st), (zoomed_image_height st); try contradiction.
  destruct Hpx as [Hrows Hcols].
  pose proof (setitem2_ok _ _ _ _ _ _ _ _ _ _ _ Hset) as (Hr1 & Hc1 & _ & Hpx1).
  set (nac := tiles_across_in_canvas st) in *.
  set (ndc := tiles_down_in_canvas st) in *.
  assert (Hcw' : canvas_width st = tile_width im * (tile_xend st' - tile_xstart st')) by lia.
  assert (Hch' : canvas_height st = tile_height im * (tile_yend st' - tile_ystart st')) by lia.
  (* the canvas after the tile loads *)
  destruct (load_tiles_keep im (zoom st) _ _ _ _ _ _ true _ _ _ _ Hfit Hcw' Hch' Htw Hth
              p1 (pixels st') (-1) 0 Hlt ltac:(lia) ltac:(lia)) as (p' & Hp' & _ & _ & _).
  { intros tilex tiley _ Hy. left. nia. }
  exists p, p'. split; [exact Hp|]. split; [exact Hp'|]. split.
  - intros tx' ty' i j Hin Hin' Hi Hj. unfold in_window, cell_x, cell_y in *.
    destruct (load_tiles_keep im (zoom st) _ _ _ _ _ _ true _ _ _ _ Hfit Hcw' Hch' Htw Hth
                p1 (pixels st') (tile_height im * (ty' - tile_ystart st') + i)
                (tile_width im * (tx' - tile_xstart st') + j) Hlt ltac:(lia) ltac:(lia))
      as (p'' & Hp'' & _ & _ & Hv).
    { intros tilex tiley Hx Hy.
      destruct (Z.eq_dec tiley ty') as [->|Hny].
      - destruct (Z.eq_dec tilex tx') as [->|Hnx].
        + right. right. apply skipped_in; lia.
        + right. left. intros Hb. apply Hnx.
          assert (tilex - tile_xstart st' = tx' - tile_xstart st')
            by (apply (band_unique (tile_width im) _ _ j); lia). lia.
      - left. intros Hb. apply Hny.
        assert (tiley - tile_ystart st' = ty' - tile_ystart st')
          by (apply (band_unique (tile_height im) _ _ i); lia). lia. }
    rewrite Hp' in Hp''. injection Hp'' as <-. rewrite Hv, Hpx1.
    unfold setitem2_at. rewrite Hrows, Hcols.
    assert (Hxe1 : tile_xend st = tile_xstart st + nac) by lia.
    assert (Hye1 : tile_yend st = tile_ystart st + ndc) by lia.
    rewrite Hch0, Hcw0, Hxe1, Hye1, Hxe, Hye.
    rewrite (shift_axis (tile_height im) ndc (tile_ystart st) (tile_ystart st')
               (ndc * tile_height im) ty' i) by lia.
    rewrite (shift_axis (tile_width im) nac (tile_xstart st) (tile_xstart st')
               (nac * tile_width im) tx' j) by lia.
    reflexivity.
  - intros tx' ty' nta ntd buf r b i j Hin' Hout Hnta Hntd Hx Hy Hbuf Hr Hb Hi Hj.
    unfold in_window, cell_x, cell_y in *.
    destruct (load_tiles_write im (zoom st) _ _ _ _ _ _ true _ _ _ _ Hfit Hcw' Hch' Htw Hth
                p1 (pixels st') tx' ty' nta ntd buf r b i j Hlt ltac:(lia) ltac:(lia)
                ltac:(lia) ltac:(lia) Hnta Hntd Hx Hy (skipped_out _ _ _ _ _ _ Hout)
                Hbuf Hr Hb Hi Hj) as (p'' & Hp'' & Hv).
    rewrite Hp' in Hp''. injection Hp'' as <-. exact Hv.
Qed.

Lemma scroll_to_keeps_and_loads_witness :
  (match scroll_to Examples.image (Examples.state_at 2) 4 0 with
   | Ok (b, _) => b = true
   | Err _ => False
   end)
  /\ match scroll_to Examples.image (Examples.state_at 2) 4 0 with
     | Ok (true, st') =>
         exists p p', pixels (Examples.state_at 2) = Some p /\ pixels st' = Some p'
         /\ (forall tx' ty' i j,
               in_window (Examples.state_at 2) tx' ty' -> in_window st' tx' ty' ->
               0 <= i < tile_height Examples.image -> 0 <= j < tile_width Examples.image ->
               px p' (cell_y Examples.image st' ty' + i) (cell_x Examples.image st' tx' + j)
               = px p (cell_y Examples.image (Examples.state_at 2) ty' + i)
                      (cell_x Examples.image (Examples.state_at 2) tx' + j))
         /\ (forall tx' ty' nta ntd buf r b i j,
               in_window st' tx' ty' -> ~ in_window (Examples.state_at 2) tx' ty' ->
               num_tiles_across Examples.image (zoom (Examples.state_at 2)) = Ok nta ->
               num_tiles_down Examples.image (zoom (Examples.state_at 2)) = Ok ntd ->
               0 <= tx' < nta -> 0 <= ty' < ntd ->
               load_tile Examples.image tx' ty' (zoom (Examples.state_at 2)) = Ok buf ->
               right_overlap Examples.image tx' (zoom (Examples.state_at 2)) = Ok r ->
               bottom_overlap Examples.image ty' (zoom (Examples.state_at 2)) = Ok b ->
               0 <= i < rows buf - top_overlap Examples.image ty' - b ->
               0 <= j < cols buf - left_overlap Examples.image tx' - r ->
               px p' (cell_y Examples.image st' ty' + i) (cell_x Examples.image st' tx' + j)
               = px buf (top_overlap Examples.image ty' + i)
                        (left_overlap Examples.image tx' + j))
     | _ => True
     end.
Proof.
  split; [vm_compute; reflexivity|].
  apply (scroll_to_keeps_and_loads Examples.image (Examples.state_at 2) 4 0).
  - vm_compute. reflexivity.
  - vm_compute. reflexivity.
  - replace (zoom (Examples.state_at 2)) with 2 by (vm_compute; reflexivity).
    apply dz_tiles_fit.
    + vm_compute. reflexivity.
    + vm_compute. split; discriminate.
    + intros w Hw. vm_compute in Hw. injection Hw as <-. lia.
    + intros h Hh. vm_compute in Hh. injection Hh as <-. lia.
  - vm_compute. repeat split; discriminate.
Defined.

(** * Further properties of the code *)

(** ** Tile arithmetic of [BigImage] *)

Lemma quot_fudge (x t : Z) :
  0 <= x -> 0 < t < 10000 -> Z.quot (10000 * x + t) (10000 * t) = x / t.
Proof.
  intros Hx Ht. rewrite Z.quot_div_nonneg by lia.
  pose proof (Z.div_mod x t ltac:(lia)). pose proof (Z.mod_pos_bound x t ltac:(lia)).
  symmetry. apply Z.div_unique with (r := 10000 * (x mod t) + t); [lia | nia].
Qed.

(** X1: for a non-negative coordinate and a tile size below 10000, [x_to_tile]
    and [y_to_tile] are the floor division by the tile size: the [+ 0.0001]
    added before truncating never moves a coordinate into the next tile. *)
Theorem x_to_tile_floor (im : BigImage) (x y : Z) :
  0 <= x -> 0 <= y -> 0 < tile_width im < 10000 -> 0 < tile_height im < 10000 ->
  x_to_tile im x = x / tile_width im /\ y_to_tile im y = y / tile_height im.
Proof.
  intros Hx Hy Hw Hh. unfold x_to_tile, y_to_tile.
  split; apply quot_fudge; assumption.
Qed.

Lemma x_to_tile_floor_witness :
  (0 <= 9 /\ 0 <= 5 /\ 0 < tile_width Examples.image < 10000
   /\ 0 < tile_height Examples.image < 10000)
  /\ x_to_tile Examples.image 9 = 9 / tile_width Examples.image
  /\ y_to_tile Examples.image 5 = 5 / tile_height Examples.image.
Proof.
  assert (Hw : 0 < tile_width Examples.image < 10000) by (vm_compute; split; reflexivity).
  assert (Hh : 0 < tile_height Examples.image < 10000) by (vm_compute; split; reflexivity).
  split; [repeat split; lia|].
  apply (x_to_tile_floor Examples.image 9 5); lia.
Defined.

(** X2: [num_tiles_across] and [num_tiles_down] give the least number
    [n >= 1] of whole tiles covering the zoomed image: [n] tiles cover it and,
    for a non-empty image, [n - 1] tiles fall short of it. *)
Theorem num_tiles_cover (im : BigImage) (z w h : Z) :
  0 < tile_width im -> 0 < tile_height im ->
  image_width_for_zoom im z = Ok w -> image_height_for_zoom im z = Ok h ->
  0 <= w -> 0 <= h ->
  exists n d, num_tiles_across im z = Ok n /\ num_tiles_down im z = Ok d
  /\ 1 <= n /\ (n - 1) * tile_width im <= w <= n * tile_width im
  /\ (0 < w -> (n - 1) * tile_width im < w)
  /\ 1 <= d /\ (d - 1) * tile_height im <= h <= d * tile_height im
  /\ (0 < h -> (d - 1) * tile_height im < h).
Proof.
  intros Htw Hth Hw Hh Hw0 Hh0. unfold num_tiles_across, num_tiles_down.
  rewrite Hw, Hh. cbn [bind].
  exists (tiles_for w (tile_width im)), (tiles_for h (tile_height im)).
  assert (Hc : forall v t, 0 < t -> 0 <= v -> v <= tiles_for v t * t).
  { intros v t Ht Hv. unfold tiles_for, py_ceil_div.
    pose proof (Z.div_mod (- v) t ltac:(lia)).
    pose proof (Z.mod_pos_bound (- v) t Ht). zcases; nia. }
  pose proof (tiles_for_bounds w _ Htw Hw0).
  pose proof (tiles_for_bounds h _ Hth Hh0).
  pose proof (Hc w _ Htw Hw0). pose proof (Hc h _ Hth Hh0).
  repeat split; auto; lia.
Qed.

Lemma num_tiles_cover_witness :
  (0 < tile_width Examples.image /\ 0 < tile_height Examples.image
   /\ image_width_for_zoom Examples.image 0 = Ok 5
   /\ image_height_for_zoom Examples.image 0 = Ok 3 /\ 0 <= 5 /\ 0 <= 3)
  /\ exists n d, num_tiles_across Examples.image 0 = Ok n
     /\ num_tiles_down Examples.image 0 = Ok d
     /\ 1 <= n /\ (n - 1) * tile_width Examples.image <= 5 <= n * tile_width Examples.image
     /\ (0 < 5 -> (n - 1) * tile_width Examples.image < 5)
     /\ 1 <= d /\ (d - 1) * tile_height Examples.image <= 3 <= d * tile_height Examples.image
     /\ (0 < 3 -> (d - 1) * tile_height Examples.image < 3).
Proof.
  assert (Hw : 0 < tile_width Examples.image) by (vm_compute; reflexivity).
  assert (Hh : 0 < tile_height Examples.image) by (vm_compute; reflexivity).
  assert (Ew : image_width_for_zoom Examples.image 0 = Ok 5) by (vm_compute; reflexivity).
  assert (Eh : image_height_for_zoom Examples.image 0 = Ok 3) by (vm_compute; reflexivity).
  split; [repeat split; auto; lia|].
  exact (num_tiles_cover Examples.image 0 5 3 Hw Hh Ew Eh ltac:(lia) ltac:(lia)).
Defined.

(** X3: a Deep Zoom tile without its overlap pixels starts at [tx * T] on
    the zoomed image and ends at [e - r] (end of the tile minus its right
    overlap): the last tile ends at the image width, an inner tile whose right
    overlap lies inside the image ends at [(tx + 1) * T], where the next tile
    starts, and an inner tile whose right overlap is cut by the image edge
    ends [ov] pixels before that edge, short of [(tx + 1) * T]. *)
Theorem dz_tile_core_columns (m : DZMeta) rd (z tx w n : Z) :
  0 < dz_tile_width m -> 0 <= dz_overlap m ->
  image_width_for_zoom (dz_image m rd) z = Ok w -> 0 <= w ->
  num_tiles_across (dz_image m rd) z = Ok n -> 0 <= tx < n ->
  let im := dz_image m rd in
  let T := dz_tile_width m in
  let ov := dz_overlap m in
  tile_start_x im tx false + left_overlap im tx = tx * T
  /\ exists e r, tile_end_x_plus_one im tx z = Ok e /\ right_overlap im tx z = Ok r
  /\ (tx = n - 1 -> e - r = w)
  /\ (tx < n - 1 -> (tx + 1) * T + ov <= w -> e - r = (tx + 1) * T)
  /\ (tx < n - 1 -> w < (tx + 1) * T + ov -> e - r = w - ov /\ w - ov < (tx + 1) * T).
Proof.
  intros HT Hov Hw Hw0 Hn Htx. cbv zeta.
  cbn [dz_image image_width_for_zoom tile_start_x left_overlap tile_end_x_plus_one
       right_overlap] in *.
  unfold num_tiles_across in Hn. cbn [dz_image image_width_for_zoom tile_width] in Hn.
  rewrite Hw in Hn. cbn [bind] in Hn. injection Hn as <-.
  unfold dz_image_width_for_zoom in Hw.
  destruct (dict_get z (dz_zoom_to_width m)) as [w'|] eqn:Ew; [|discriminate].
  injection Hw as ->.
  destruct (tiles_for_bounds w _ HT Hw0) as (H1 & H2 & H3).
  split.
  { unfold dz_tile_start, dz_left_overlap. cbn [andb]. zcases; lia. }
  unfold dz_tile_end_x_plus_one, dz_right_overlap, dz_image_width_for_zoom.
  rewrite Ew. cbn [bind]. eexists _, _. split; [reflexivity|]. split; [reflexivity|].
  unfold dz_tile_start, dz_left_overlap. cbn [andb].
  assert (tx * dz_tile_width m <= (tiles_for w (dz_tile_width m) - 1) * dz_tile_width m) by nia.
  assert (tx < tiles_for w (dz_tile_width m) - 1 ->
          (tx + 1) * dz_tile_width m <= (tiles_for w (dz_tile_width m) - 1) * dz_tile_width m) by nia.
  assert (tiles_for w (dz_tile_width m) * dz_tile_width m >= w).
  { unfold tiles_for, py_ceil_div in *.
    pose proof (Z.div_mod (- w) (dz_tile_width m) ltac:(lia)).
    pose proof (Z.mod_pos_bound (- w) (dz_tile_width m) HT). zcases; nia. }
  split; [|split]; intros; zcases; nia.
Qed.

Lemma dz_tile_core_columns_witness :
  (0 < dz_tile_width Examples.meta_ov2 /\ 0 <= dz_overlap Examples.meta_ov2
   /\ image_width_for_zoom (dz_image Examples.meta_ov2 Examples.imread) 0 = Ok 9 /\ 0 <= 9
   /\ num_tiles_across (dz_image Examples.meta_ov2 Examples.imread) 0 = Ok 3 /\ 0 <= 1 < 3)
  /\ let im := dz_image Examples.meta_ov2 Examples.imread in
  tile_start_x im 1 false + left_overlap im 1 = 1 * 4
  /\ exists e r, tile_end_x_plus_one im 1 0 = Ok e /\ right_overlap im 1 0 = Ok r
  /\ (1 = 3 - 1 -> e - r = 9)
  /\ (1 < 3 - 1 -> (1 + 1) * 4 + 2 <= 9 -> e - r = (1 + 1) * 4)
  /\ (1 < 3 - 1 -> 9 < (1 + 1) * 4 + 2 -> e - r = 9 - 2 /\ 9 - 2 < (1 + 1) * 4).
Proof.
  split; [vm_compute; repeat split; congruence|].
  apply (dz_tile_core_columns Examples.meta_ov2 Examples.imread 0 1 9 3);
    vm_compute; try reflexivity; try congruence; split; congruence.
Defined.

(** X4: loading a tile at a zoom missing from the width table raises
    [ZoomError] for a Deep Zoom image and [KeyError] for a large_image one. *)
Theorem load_tile_missing_zoom :
  (forall m rd tx ty z,
     dict_get z (dz_zoom_to_width m) = None ->
     load_tile (dz_image m rd) tx ty z = Err ZoomError)
  /\ (forall g gt tx ty z,
     dict_get z (li_zoom_to_width g) = None ->
     load_tile (li_image g gt) tx ty z = Err KeyError).
Proof.
  split.
  - intros m rd tx ty z H. cbn [dz_image load_tile].
    unfold dz_load_tile, dz_tile_end_x_plus_one, dz_right_overlap, dz_image_width_for_zoom.
    rewrite H. reflexivity.
  - intros g gt tx ty z H. cbn [li_image load_tile].
    unfold li_load_tile, li_tile_end_x_plus_one. rewrite H. reflexivity.
Qed.

Lemma load_tile_missing_zoom_witness :
  dict_get 5 (dz_zoom_to_width Examples.meta) = None
  /\ load_tile Examples.image 0 0 5 = Err ZoomError.
Proof.
  assert (E : dict_get 5 (dz_zoom_to_width Examples.meta) = None) by (vm_compute; reflexivity).
  split; [exact E|].
  exact (proj1 load_tile_missing_zoom Examples.meta Examples.imread 0 0 5 E).
Defined.

(** X5: [fit_to_viewport] returns the first zoom of [zooms] whose size
    fits, meaning a width at most the viewport width and a height strictly
    below the viewport height, when every zoom before it is missing or too
    big. *)
Theorem fit_to_viewport_first_fit (im : BigImage) (vw vh : Z) pre z post w h :
  zooms im = pre ++ z :: post ->
  Forall (passed_over im vw vh) pre ->
  image_width_for_zoom im z = Ok w -> image_height_for_zoom im z = Ok h ->
  w <= vw -> h < vh ->
  fit_to_viewport im vw vh = Ok (z, w, h).
Proof.
  intros Hz Hpre Hw Hh Hvw Hvh. unfold fit_to_viewport. rewrite Hz. clear Hz.
  assert (G : forall o1 o2 o3, fit_scan im vw vh (pre ++ z :: post) o1 o2 o3 = Ok (z, w, h));
    [|apply G].
  induction Hpre as [|z' pre Hp Hpre IH]; intros o1 o2 o3; cbn [app fit_scan].
  - rewrite Hw, Hh. replace ((w <=? vw) && (h <? vh)) with true by lia. reflexivity.
  - destruct Hp as [Hp | [(w' & Hw' & Hh') | (w' & h' & Hw' & Hh' & Hn)]].
    + rewrite Hp. apply IH.
    + rewrite Hw', Hh'. apply IH.
    + rewrite Hw', Hh'. replace ((w' <=? vw) && (h' <? vh)) with false by lia. apply IH.
Qed.

Lemma fit_to_viewport_first_fit_witness :
  (zooms Examples.image = [2; 1] ++ 0 :: []
   /\ Forall (passed_over Examples.image 6 5) [2; 1]
   /\ image_width_for_zoom Examples.image 0 = Ok 5
   /\ image_height_for_zoom Examples.image 0 = Ok 3 /\ 5 <= 6 /\ 3 < 5)
  /\ fit_to_viewport Examples.image 6 5 = Ok (0, 5, 3).
Proof.
  assert (Hz : zooms Examples.image = [2; 1] ++ 0 :: []) by (vm_compute; reflexivity).
  assert (Hp : Forall (passed_over Examples.image 6 5) [2; 1]).
  { constructor; [|constructor; [|constructor]]; right; right.
    - exists 20, 12. split; [vm_compute; reflexivity|]. split; [vm_compute; reflexivity|]. lia.
    - exists 10, 6. split; [vm_compute; reflexivity|]. split; [vm_compute; reflexivity|]. lia. }
  assert (Hw : image_width_for_zoom Examples.image 0 = Ok 5) by (vm_compute; reflexivity).
  assert (Hh : image_height_for_zoom Examples.image 0 = Ok 3) by (vm_compute; reflexivity).
  split; [repeat split; auto; lia|].
  exact (fit_to_viewport_first_fit Examples.image 6 5 [2; 1] 0 [] 5 3 Hz Hp Hw Hh
           ltac:(lia) ltac:(lia)).
Defined.

(** ** The viewport of [LoadedImage] *)

Lemma load_image_window im st c st' :
  load_image im st c = Ok st' -> window_ok im st -> window_ok im st'.
Proof.
  intros Hl Hok. unfold load_image in Hl.
  destruct (_ || _) eqn:Hv in Hl; [injection Hl as <-; exact Hok|].
  crush_nb Hl. all: injection Hl as <-; reflexivity.
Qed.

Lemma scroll_to_window im st tx ty b st' :
  scroll_to im st tx ty = Ok (b, st') -> window_ok im st -> window_ok im st'.
Proof.
  intros Hs Hok. unfold scroll_to in Hs.
  destruct (zoomed_image_width st) as [W|]; cbn [bind not_none] in Hs; [|discriminate].
  destruct (zoomed_image_height st) as [H|]; cbn [bind not_none] in Hs; [|discriminate].
  destruct (_ && _) eqn:Ed in Hs; [injection Hs as _ <-; exact Hok|].
  crush_nb Hs.
  all: destruct (negb _) eqn:Ew in Hs; [crush_nb Hs; injection Hs as _ <-; reflexivity|].
  all: injection Hs as _ <-; apply negb_false_iff, window_eqb in Ew;
       unfold window_ok, window_of, current_window; cbn; rewrite Ew; reflexivity.
Qed.

Lemma shift_sub (t M v a b : Z) :
  (if Z.max 0 M >? 0 then (t * Z.max 0 M, v - t * Z.max 0 M) else (0, v)) = (a, b) ->
  a = t * Z.max 0 M /\ b = v - t * Z.max 0 M.
Proof. zcases; intros E; injection E; lia. Qed.
Lemma shift_add (t M v a b : Z) :
  (if Z.max 0 M >? 0 then (t * Z.max 0 M, v + t * Z.max 0 M) else (0, v)) = (a, b) ->
  a = t * Z.max 0 M /\ b = v + t * Z.max 0 M.
Proof. zcases; intros E; injection E; lia. Qed.

Lemma max_diff t a : t * Z.max 0 a - t * Z.max 0 (- a) = t * a.
Proof.
  destruct (Z.le_ge_cases 0 a).
  - rewrite (Z.max_r 0 a), (Z.max_l 0 (- a)) by lia. ring.
  - rewrite (Z.max_l 0 a), (Z.max_r 0 (- a)) by lia. ring.
Qed.

(** The clipping of [scroll_to] on one axis, for a clamped target. *)
Lemma clip_axis (X W vw cr v1 cl v2 cr' : Z) :
  0 <= X -> (vw <= W -> X <= W - vw) -> (W < vw -> X = 0) ->
  (if X + vw >? W then (X + vw - W, W - vw) else (0, X)) = (cr, v1) ->
  (if v1 <? 0 then (- v1, 0, 0) else (0, v1, cr)) = (cl, v2, cr') ->
  v2 = X
  /\ forall v, (if cl >? 0 then v + cl else if cr' >? 0 then v - cr' else v)
     = v + (if W <? vw then vw - W else 0).
Proof.
  intros H0 H1 H2 E1 E2.
  destruct (Z.ltb_spec W vw).
  - specialize (H2 ltac:(lia)). subst X.
    replace (0 + vw >? W) with true in E1 by (symmetry; apply Z.gtb_lt; lia).
    injection E1 as <- <-.
    replace (W - vw <? 0) with true in E2 by (symmetry; apply Z.ltb_lt; lia).
    injection E2 as <- <- <-. split; [reflexivity|]. intros v. zcases; lia.
  - specialize (H1 ltac:(lia)).
    replace (X + vw >? W) with false in E1 by (symmetry; rewrite Z.gtb_ltb; apply Z.ltb_ge; lia).
    injection E1 as <- <-.
    replace (X <? 0) with false in E2 by (symmetry; apply Z.ltb_ge; lia).
    injection E2 as <- <- <-. split; [reflexivity|]. intros v. zcases; lia.
Qed.

Lemma scroll_to_offset im st tx ty b st' W H :
  window_ok im st ->
  zoomed_image_width st = Some W -> zoomed_image_height st = Some H ->
  scroll_to im st tx ty = Ok (b, st') ->
  canvas_offset_x im st' = canvas_offset_x im st
    + (if b && (W <? viewport_width st) then viewport_width st - W else 0)
  /\ canvas_offset_y im st' = canvas_offset_y im st
    + (if b && (H <? viewport_height st) then viewport_height st - H else 0).
Proof.
  intros Hok HW HH Hs. unfold scroll_to in Hs. rewrite HW, HH in Hs.
  cbn [bind not_none] in Hs.
  rewrite !clamp_clip in Hs.
  destruct (clip_pos_bounds tx W (viewport_width st)) as (Bx0 & Bx1 & Bx2 & _).
  destruct (clip_pos_bounds ty H (viewport_height st)) as (By0 & By1 & By2 & _).
  set (X := clip_pos tx W (viewport_width st)) in *.
  set (Y := clip_pos ty H (viewport_height st)) in *.
  clearbody X Y.
  unfold window_ok, window_of, current_window in Hok.
  injection Hok as Hxs Hys Hxe Hye.
  assert (Hxe1 : tile_xend st = tile_xstart st + tiles_across_in_canvas st) by lia.
  assert (Hye1 : tile_yend st = tile_ystart st + tiles_down_in_canvas st) by lia.
  clear Hxs Hys Hxe Hye.
  unfold canvas_offset_x, canvas_offset_y.
  destruct ((viewport_x_on_fullimage st - X =? 0)
            && (viewport_y_on_fullimage st - Y =? 0)) eqn:Ed.
  { injection Hs as <- <-. cbn [andb]. lia. }
  crush_nb Hs.
  all: destruct (negb _) eqn:Ew in Hs;
       [ crush_nb Hs; injection Hs as <- <-; cbn
       | injection Hs as <- <-; cbn ].
  all: repeat match goal with E : ?p = (_, _) |- _ => is_var p; subst p end.
  all: repeat match goal with
       | E1 : (if ?X + ?vw >? ?W then _ else _) = (_, ?v1),
         E2 : (if ?v1 <? 0 then _ else _) = _ |- _ =>
           let c := fresh "Cl" in
           pose proof (clip_axis X W vw _ _ _ _ _ ltac:(assumption) ltac:(assumption)
                         ltac:(assumption) E1 E2) as c; clear E1 E2;
           destruct c as [? c]; subst; try rewrite c; clear c
       end.
  all: rewrite ?gt_sub_max, ?lt_sub_max in *.
  all: repeat match goal with
         | E : (if _ then (_, ?v - _) else (0, ?v)) = (_, _) |- _ =>
             apply shift_sub in E; destruct E as [? ?]; subst
         | E : (if _ then (_, ?v + _) else (0, ?v)) = (_, _) |- _ =>
             apply shift_add in E; destruct E as [? ?]; subst
         end.
  all: rewrite ?Hxe1, ?Hye1.
  all: repeat match goal with
         | |- context [Z.max 0 (?o + ?k - (?n + ?k))] =>
             replace (o + k - (n + k)) with (- (n - o)) by lia
         end.
  all: repeat match goal with
         | |- context [?t * Z.max 0 (- ?a)] =>
             lazymatch goal with _ : t * Z.max 0 a - _ = _ |- _ => fail | _ => idtac end;
             pose proof (max_diff t a)
         end.
  all: split; lia.
Qed.

(** X7: the offset of the canvas under the viewport,
    [viewport_x - (viewport_x_on_fullimage - tile_width * tile_xstart)], is
    kept by a [scroll_to] from a consistent state, except when the tile window
    changes and the zoomed image is narrower than the viewport: then it grows
    by [viewport_width - zoomed width] (and likewise for the height). *)
Theorem scroll_to_viewport_offset im st tx ty b st' W H :
  window_ok im st ->
  zoomed_image_width st = Some W -> zoomed_image_height st = Some H ->
  scroll_to im st tx ty = Ok (b, st') ->
  canvas_offset_x im st' = canvas_offset_x im st
    + (if b && (W <? viewport_width st) then viewport_width st - W else 0)
  /\ canvas_offset_y im st' = canvas_offset_y im st
    + (if b && (H <? viewport_height st) then viewport_height st - H else 0).
Proof. exact (scroll_to_offset im st tx ty b st' W H). Qed.

Lemma scroll_to_viewport_offset_witness :
  (window_ok Examples.image Examples.narrow_state
   /\ zoomed_image_width Examples.narrow_state = Some 10
   /\ zoomed_image_height Examples.narrow_state = Some 6
   /\ viewport_width Examples.narrow_state = 11)
  /\ exists st', scroll_to Examples.image Examples.narrow_state 0 4 = Ok (true, st')
     /\ canvas_offset_x Examples.image st' = canvas_offset_x Examples.image Examples.narrow_state + 1
     /\ canvas_offset_y Examples.image st' = canvas_offset_y Examples.image Examples.narrow_state.
Proof.
  assert (Hok : window_ok Examples.image Examples.narrow_state) by (vm_compute; reflexivity).
  assert (HW : zoomed_image_width Examples.narrow_state = Some 10) by (vm_compute; reflexivity).
  assert (HH : zoomed_image_height Examples.narrow_state = Some 6) by (vm_compute; reflexivity).
  assert (Hv : viewport_width Examples.narrow_state = 11) by (vm_compute; reflexivity).
  split; [auto|].
  assert (Hb : match scroll_to Examples.image Examples.narrow_state 0 4 with
               | Ok (b, _) => b | Err _ => false end = true) by (vm_compute; reflexivity).
  destruct (scroll_to Examples.image Examples.narrow_state 0 4) as [[b st']|e] eqn:Es;
    [|discriminate Hb].
  subst b. exists st'. split; [reflexivity|].
  destruct (scroll_to_viewport_offset Examples.image Examples.narrow_state 0 4 true st' 10 6
              Hok HW HH Es) as [Ex Ey].
  assert (Hvh : viewport_height Examples.narrow_state = 1) by (vm_compute; reflexivity).
  rewrite Hv in Ex. rewrite Hvh in Ey. cbn in Ex, Ey. lia.
Defined.

Lemma scroll_to_fields im st tx ty b st' :
  scroll_to im st tx ty = Ok (b, st') ->
  zoomed_image_width st' = zoomed_image_width st
  /\ zoomed_image_height st' = zoomed_image_height st
  /\ canvas_width st' = canvas_width st /\ canvas_height st' = canvas_height st
  /\ tiles_across_in_canvas st' = tiles_across_in_canvas st
  /\ tiles_down_in_canvas st' = tiles_down_in_canvas st
  /\ zoom st' = zoom st /\ (b = false -> pixels st' = pixels st).
Proof.
  intros Hs. unfold scroll_to in Hs.
  destruct (zoomed_image_width st) as [W|] eqn:HW; cbn [bind not_none] in Hs; [|discriminate].
  destruct (zoomed_image_height st) as [H|] eqn:HH; cbn [bind not_none] in Hs; [|discriminate].
  destruct (_ && _) eqn:Ed in Hs; [injection Hs as _ <-; auto 10|].
  crush_nb Hs.
  all: destruct (negb _) eqn:Ew in Hs;
       [ crush_nb Hs; injection Hs as <- <-; cbn; rewrite ?HW, ?HH;
         repeat split; intros; discriminate
       | injection Hs as _ <-; cbn; auto 10 ].
Qed.

(** X8: [scroll_to] keeps an image loaded: the window still matches the
    position, the zoomed size is still known and the canvas keeps its size. *)
Theorem scroll_to_keeps_loaded im st tx ty b st' :
  loaded im st -> scroll_to im st tx ty = Ok (b, st') -> loaded im st'.
Proof.
  intros (Hok & Ha & Hd & Hcw & Hch & Hm) Hs.
  pose proof (scroll_to_window _ _ _ _ _ _ Hs Hok) as Hok'.
  destruct (scroll_to_fields _ _ _ _ _ _ Hs) as (Fw & Fh & Fcw & Fch & Fa & Fd & Fz & Fp).
  unfold loaded. rewrite Fw, Fh, Fcw, Fch, Fa, Fd.
  split; [exact Hok'|]. do 4 (split; [assumption|]).
  destruct (zoomed_image_width st), (zoomed_image_height st); try contradiction.
  destruct b.
  - destruct (scroll_to_true_inv _ _ _ _ _ Hs) as (p & p' & Hp & Hset & Hl & _).
    rewrite Hp in Hm. destruct Hm as [Hr Hc].
    apply setitem2_ok in Hset. destruct Hset as (Hr' & Hc' & _).
    apply load_tiles_cases in Hl. destruct Hl as (nta & ntd & acc & _ & _ & Hf & Hpx).
    assert (Hacc : canvas_ok (canvas_height st) (canvas_width st) acc).
    { refine (foldM_inv _ _ _ _ _ Hf _ _).
      - cbn. lia.
      - intros a x a' _ Ha0 Hst. eapply row_step_canvas; eassumption. }
    rewrite Hpx. unfold canvas_ok in Hacc. destruct (fst acc); [exact Hacc | contradiction].
  - rewrite Fp by reflexivity. exact Hm.
Qed.

Lemma scroll_to_keeps_loaded_witness :
  loaded Examples.image (Examples.state_at 2)
  /\ forall b st', scroll_to Examples.image (Examples.state_at 2) 3 2 = Ok (b, st') ->
     loaded Examples.image st'.
Proof.
  assert (Hl : loaded Examples.image (Examples.state_at 2)).
  { unfold loaded. vm_compute. repeat split; try reflexivity; intros Hc; discriminate Hc. }
  split; [exact Hl|].
  intros b st' Hs. exact (scroll_to_keeps_loaded _ _ _ _ _ _ Hl Hs).
Defined.

(** X10: [load_image], [scroll_to], [scroll] and [zoom_to] keep the tile
    window matching the viewport position. *)
Theorem window_ok_kept im st :
  window_ok im st ->
  (forall c st', load_image im st c = Ok st' -> window_ok im st')
  /\ (forall tx ty b st', scroll_to im st tx ty = Ok (b, st') -> window_ok im st')
  /\ (forall dx dy b st', scroll im st dx dy = Ok (b, st') -> window_ok im st')
  /\ (forall z cx cy b st', zoom_to im st z cx cy = Ok (b, st') -> window_ok im st').
Proof.
  intros Hok. split; [|split; [|split]].
  - intros c st' Hl. exact (load_image_window _ _ _ _ Hl Hok).
  - intros tx ty b st' Hs. exact (scroll_to_window _ _ _ _ _ _ Hs Hok).
  - intros dx dy b st' Hs. exact (scroll_to_window _ _ _ _ _ _ Hs Hok).
  - intros z cx cy b st' Hz. unfold zoom_to in Hz.
    destruct (min_zoom im) as [mz|]; cbn [bind not_none] in Hz; [|discriminate].
    destruct (_ || _ || _); [injection Hz as _ <-; exact Hok|].
    crush_nb Hz. injection Hz as _ <-.
    match goal with E : load_image _ _ _ = Ok _ |- _ => exact (load_image_window _ _ _ _ E Hok) end.
Qed.

Lemma window_ok_kept_witness :
  window_ok Examples.image (Examples.state_at 2)
  /\ (forall c st', load_image Examples.image (Examples.state_at 2) c = Ok st' ->
        window_ok Examples.image st')
  /\ (forall tx ty b st', scroll_to Examples.image (Examples.state_at 2) tx ty = Ok (b, st') ->
        window_ok Examples.image st')
  /\ (forall dx dy b st', scroll Examples.image (Examples.state_at 2) dx dy = Ok (b, st') ->
        window_ok Examples.image st')
  /\ (forall z cx cy b st', zoom_to Examples.image (Examples.state_at 2) z cx cy = Ok (b, st') ->
        window_ok Examples.image st').
Proof.
  assert (Hok : window_ok Examples.image (Examples.state_at 2)) by (vm_compute; reflexivity).
  split; [exact Hok|]. exact (window_ok_kept _ _ Hok).
Defined.

(** ** [load_image] *)

Lemma load_image_offset im st c st' :
  viewport_width st <> 0 -> viewport_height st <> 0 ->
  load_image im st c = Ok st' ->
  canvas_offset_x im st' = tile_width im * tile_xstart st' - tile_start_x im (tile_xstart st') false
  /\ canvas_offset_y im st' = tile_height im * tile_ystart st' - tile_start_y im (tile_ystart st') false.
Proof.
  intros Hw Hh Hl. unfold load_image in Hl.
  replace ((viewport_width st =? 0) || (viewport_height st =? 0)) with false in Hl
    by (symmetry; apply orb_false_iff; split; apply Z.eqb_neq; assumption).
  crush_nb Hl. all: injection Hl as <-; unfold canvas_offset_x, canvas_offset_y; cbn; lia.
Qed.

(** X11: after a [load_image] into a non-empty viewport, the canvas of a
    Deep Zoom image lies [overlap] pixels further right (down) under the
    viewport than the tile grid puts it, unless the tile window starts at
    tile 0, because the canvas starts at [tile_start_x], which includes the
    left overlap; for a large_image pyramid the offset is always 0. *)
Theorem load_image_canvas_offset :
  (forall m rd st c st',
     viewport_width st <> 0 -> viewport_height st <> 0 ->
     load_image (dz_image m rd) st c = Ok st' ->
     canvas_offset_x (dz_image m rd) st' = (if tile_xstart st' =? 0 then 0 else dz_overlap m)
     /\ canvas_offset_y (dz_image m rd) st' = (if tile_ystart st' =? 0 then 0 else dz_overlap m))
  /\ (forall g gt st c st',
     viewport_width st <> 0 -> viewport_height st <> 0 ->
     load_image (li_image g gt) st c = Ok st' ->
     canvas_offset_x (li_image g gt) st' = 0 /\ canvas_offset_y (li_image g gt) st' = 0).
Proof.
  split.
  - intros m rd st c st' Hw Hh Hl.
    destruct (load_image_offset _ _ _ _ Hw Hh Hl) as [Ex Ey]. rewrite Ex, Ey.
    cbn [dz_image tile_width tile_height tile_start_x tile_start_y].
    unfold dz_tile_start. cbn [andb]. split; zcases; lia.
  - intros g gt st c st' Hw Hh Hl.
    destruct (load_image_offset _ _ _ _ Hw Hh Hl) as [Ex Ey]. rewrite Ex, Ey.
    cbn [li_image tile_width tile_height tile_start_x tile_start_y].
    unfold li_tile_start_x, li_tile_start_y. cbn [andb]. split; lia.
Qed.

(** X12: a [load_image] at zoom [-1] takes zoom and size from
    [fit_to_viewport], but clamps the viewport position against the zoomed
    size the state had before (only at 0 when it had none), not against the
    fitted size. *)
Theorem load_image_fit_position im st c st' z W H :
  viewport_width st <> 0 -> viewport_height st <> 0 -> zoom st = -1 ->
  fit_to_viewport im (viewport_width st) (viewport_height st) = Ok (z, W, H) ->
  load_image im st c = Ok st' ->
  zoom st' = z /\ zoomed_image_width st' = Some W /\ zoomed_image_height st' = Some H
  /\ viewport_x_on_fullimage st'
     = match zoomed_image_width st with
       | Some W0 => clip_pos (fst (load_target st c)) W0 (viewport_width st)
       | None => Z.max 0 (fst (load_target st c))
       end
  /\ viewport_y_on_fullimage st'
     = match zoomed_image_height st with
       | Some H0 => clip_pos (snd (load_target st c)) H0 (viewport_height st)
       | None => Z.max 0 (snd (load_target st c))
       end.
Proof.
  intros Hw Hh Hz Hf Hl. unfold load_image in Hl.
  apply Z.eqb_neq in Hw, Hh. rewrite Hw, Hh in Hl.
  replace (zoom st =? -1) with true in Hl by (symmetry; apply Z.eqb_eq; exact Hz).
  cbn [orb negb bind] in Hl. rewrite Hf in Hl. cbn [bind] in Hl. unfold load_target.
  destruct c as [[cx cy]|]; cbv beta iota zeta in Hl;
  destruct (zoomed_image_width st) as [W0|]; destruct (zoomed_image_height st) as [H0|];
  rewrite ?clamp_clip in Hl; crush_nb Hl; injection Hl as <-; cbn;
  repeat split; zcases; lia.
Qed.

Lemma load_tiles_outside im z txs tys txe tye cw ch pix init skip otxs otys otxe otye
    nta ntd pix' :
  load_tiles im z txs tys txe tye cw ch pix init skip otxs otys otxe otye = Ok pix' ->
  num_tiles_across im z = Ok nta -> num_tiles_down im z = Ok ntd ->
  (txe <= 0 \/ nta <= txs \/ tye <= 0 \/ ntd <= tys) -> pix' = pix.
Proof.
  intros Hl Hn Hd Hout. unfold load_tiles in Hl. rewrite Hn, Hd in Hl. cbn [bind] in Hl.
  destruct (foldM _ _ _) as [[p f]|e] eqn:Hf; cbn [bind] in Hl; [|discriminate].
  injection Hl as <-.
  refine (foldM_inv _ (fun a => fst a = pix) _ _ _ Hf eq_refl _).
  intros a y a' Hy Ha Hs. unfold row_step in Hs.
  destruct ((y <? 0) || (y >=? ntd)) eqn:Er; [injection Hs as <-; exact Ha|].
  destruct (bottom_overlap im y z); cbn [bind] in Hs; [|discriminate].
  refine (foldM_inv _ (fun a => fst a = pix) _ _ _ Hs Ha _).
  intros b x b' Hx Hb Ht. unfold tile_step in Ht. destruct b as [pb fb].
  destruct ((x <? 0) || (x >=? nta)) eqn:Ec; [injection Ht as <-; exact Hb|].
  exfalso. apply in_zrange in Hx, Hy.
  apply orb_false_iff in Er, Ec. destruct Er as [Er1 Er2]. destruct Ec as [Ec1 Ec2].
  zhyps. lia.
Qed.

(** X13: when the tile window [load_image] computes lies entirely outside the
    tile grid of the zoom, no tile is loaded and the old canvas is kept. *)
Theorem load_image_outside_keeps_pixels im st c st' nta ntd :
  load_image im st c = Ok st' ->
  num_tiles_across im (zoom st') = Ok nta -> num_tiles_down im (zoom st') = Ok ntd ->
  (tile_xend st' <= 0 \/ nta <= tile_xstart st' \/ tile_yend st' <= 0
   \/ ntd <= tile_ystart st') ->
  pixels st' = pixels st.
Proof.
  intros Hl Hn Hd Hout. unfold load_image in Hl.
  destruct (_ || _) in Hl; [injection Hl as <-; reflexivity|].
  crush_nb Hl. all: injection Hl as <-; cbn in *; eapply load_tiles_outside; eassumption.
Qed.

Lemma load_image_canvas_offset_witness :
  (viewport_width (init_state 1 2 6 5) <> 0 /\ viewport_height (init_state 1 2 6 5) <> 0)
  /\ canvas_offset_x Examples.image (Examples.state_at 2) = 1
  /\ canvas_offset_y Examples.image (Examples.state_at 2) = 1.
Proof.
  assert (Hw : viewport_width (init_state 1 2 6 5) <> 0) by (cbn; lia).
  assert (Hh : viewport_height (init_state 1 2 6 5) <> 0) by (cbn; lia).
  split; [split; assumption|].
  assert (Hb : match load_image Examples.image (init_state 1 2 6 5) None with
               | Ok _ => true | Err _ => false end = true) by (vm_compute; reflexivity).
  assert (Hx : tile_xstart (Examples.state_at 2) = -1) by (vm_compute; reflexivity).
  assert (Hy : tile_ystart (Examples.state_at 2) = -1) by (vm_compute; reflexivity).
  assert (Ho : dz_overlap Examples.meta = 1) by (vm_compute; reflexivity).
  unfold Examples.state_at in *.
  destruct (load_image Examples.image (init_state 1 2 6 5) None) as [st|e] eqn:El;
    [|discriminate Hb].
  destruct (proj1 load_image_canvas_offset _ _ _ _ _ Hw Hh El) as [Ex Ey].
  unfold Examples.image. rewrite Ex, Ey, Hx, Hy, Ho. split; reflexivity.
Defined.

Lemma load_image_fit_position_witness :
  (viewport_width Examples.stale_state <> 0 /\ viewport_height Examples.stale_state <> 0
   /\ zoom Examples.stale_state = -1
   /\ fit_to_viewport Examples.image (viewport_width Examples.stale_state)
        (viewport_height Examples.stale_state) = Ok (0, 5, 3)
   /\ zoomed_image_width Examples.stale_state = Some 20 /\ viewport_x_on_fullimage Examples.stale_state = 14)
  /\ exists st', load_image Examples.image Examples.stale_state None = Ok st'
     /\ zoom st' = 0 /\ zoomed_image_width st' = Some 5
     /\ viewport_x_on_fullimage st' = 14.
Proof.
  assert (Hw : viewport_width Examples.stale_state <> 0) by (vm_compute; discriminate).
  assert (Hh : viewport_height Examples.stale_state <> 0) by (vm_compute; discriminate).
  assert (Hz : zoom Examples.stale_state = -1) by (vm_compute; reflexivity).
  assert (Hf : fit_to_viewport Examples.image (viewport_width Examples.stale_state)
                 (viewport_height Examples.stale_state) = Ok (0, 5, 3)) by (vm_compute; reflexivity).
  assert (HW : zoomed_image_width Examples.stale_state = Some 20) by (vm_compute; reflexivity).
  assert (Hx : viewport_x_on_fullimage Examples.stale_state = 14) by (vm_compute; reflexivity).
  assert (Hv : viewport_width Examples.stale_state = 6) by (vm_compute; reflexivity).
  split; [repeat split; assumption|].
  assert (Hb : match load_image Examples.image Examples.stale_state None with
               | Ok _ => true | Err _ => false end = true) by (vm_compute; reflexivity).
  destruct (load_image Examples.image Examples.stale_state None) as [st'|e] eqn:El;
    [|discriminate Hb].
  exists st'. split; [reflexivity|].
  destruct (load_image_fit_position _ _ _ _ _ _ _ Hw Hh Hz Hf El)
    as (Ez & EW & _ & Ex & _).
  rewrite HW in Ex. cbn [load_target fst] in Ex. rewrite Hx, Hv in Ex.
  split; [exact Ez|]. split; [exact EW|]. rewrite Ex. reflexivity.
Defined.

Lemma load_image_outside_keeps_pixels_witness :
  exists st', load_image Examples.image Examples.stale_state None = Ok st'
  /\ num_tiles_across Examples.image (zoom st') = Ok 2
  /\ num_tiles_down Examples.image (zoom st') = Ok 1
  /\ 2 <= tile_xstart st'
  /\ pixels st' = pixels Examples.stale_state.
Proof.
  assert (Hi : match load_image Examples.image Examples.stale_state None with
               | Ok s => (zoom s, tile_xstart s) | Err _ => (1, 0) end = (0, 2))
    by (vm_compute; reflexivity).
  destruct (load_image Examples.image Examples.stale_state None) as [st'|e] eqn:El;
    [|discriminate Hi].
  injection Hi as Hz Hx.
  assert (Hn : num_tiles_across Examples.image (zoom st') = Ok 2)
    by (rewrite Hz; vm_compute; reflexivity).
  assert (Hd : num_tiles_down Examples.image (zoom st') = Ok 1)
    by (rewrite Hz; vm_compute; reflexivity).
  exists st'. split; [reflexivity|]. split; [exact Hn|]. split; [exact Hd|].
  split; [lia|].
  exact (load_image_outside_keeps_pixels _ _ _ _ _ _ El Hn Hd ltac:(lia)).
Defined.

(** ** The zoom tables of [open] *)

Lemma fold_tables (f : dict * dict -> Z -> res (dict * dict)) (F G : Z -> Z) l zw0 zh0 zw zh :
  (forall a b z, f (a, b) z = Ok (dict_set z (F z) a, dict_set z (G z) b)) ->
  foldM f l (zw0, zh0) = Ok (zw, zh) ->
  forall z, dict_get z zw = (if existsb (Z.eqb z) l then Some (F z) else dict_get z zw0)
  /\ dict_get z zh = (if existsb (Z.eqb z) l then Some (G z) else dict_get z zh0).
Proof.
  intros Hf. revert zw0 zh0. induction l as [|x l IH]; intros zw0 zh0 Hl z; cbn in Hl |- *.
  - injection Hl as <- <-. auto.
  - rewrite Hf in Hl. cbn [bind] in Hl. destruct (IH _ _ Hl z) as [E1 E2].
    rewrite E1, E2. unfold dict_set. cbn [dict_get].
    destruct (Z.eqb_spec z x) as [->|]; cbn [orb];
      destruct (existsb (Z.eqb x) l); auto.
Qed.

Lemma existsb_zrange z a b : existsb (Z.eqb z) (zrange a b) = (a <=? z) && (z <? b).
Proof.
  destruct (existsb (Z.eqb z) (zrange a b)) eqn:E; symmetry.
  - apply existsb_exists in E. destruct E as (y & Hy & Hz). apply Z.eqb_eq in Hz. subst.
    apply in_zrange in Hy. apply andb_true_iff. lia.
  - apply not_true_iff_false. intros Hc. apply andb_true_iff in Hc.
    assert (Hin : In z (zrange a b)) by (apply in_zrange; lia).
    assert (Ht : existsb (Z.eqb z) (zrange a b) = true)
      by (apply existsb_exists; exists z; split; [exact Hin | apply Z.eqb_refl]).
    congruence.
Qed.

(** X14: [LIImage.open] lists the zooms [max_zoom .. 0] and records for each
    of them, and only for them, the size [sizeX >> (max_zoom - zoom)]
    ([sizeY] for the height). *)
Theorem li_open_zoom_tables meta m w h :
  li_open meta = Ok m -> lm_width m = PInt w -> lm_height m = PInt h ->
  lm_zooms m = range_down_to_0 (lm_max_zoom m)
  /\ forall z,
     dict_get z (lm_zoom_to_width m)
       = (if (0 <=? z) && (z <=? lm_max_zoom m)
          then Some (Z.shiftr w (lm_max_zoom m - z)) else None)
     /\ dict_get z (lm_zoom_to_height m)
       = (if (0 <=? z) && (z <=? lm_max_zoom m)
          then Some (Z.shiftr h (lm_max_zoom m - z)) else None).
Proof.
  intros Ho Hw Hh. unfold li_open in Ho.
  set (M := match assoc "levels" meta with
            | Some lv => py_sub1 lv
            | None => Ok 0
            end) in Ho.
  destruct M as [mx|e]; cbn [bind] in Ho; [|discriminate].
  destruct (assoc "tileWidth" meta), (assoc "tileHeight" meta); try discriminate.
  destruct (assoc "sizeX" meta) as [w'|], (assoc "sizeY" meta) as [h'|]; try discriminate.
  destruct (foldM _ _ _) as [[zw zh]|e] eqn:Hf; cbn [bind] in Ho; [|discriminate].
  injection Ho as <-. cbn in Hw, Hh |- *. subst w' h'.
  split; [reflexivity|]. intros z.
  pose proof (fold_tables _ (fun z => Z.shiftr w (mx - z)) (fun z => Z.shiftr h (mx - z))
                _ _ _ _ _ (fun a b z => eq_refl) Hf z) as [E1 E2].
  rewrite E1, E2, existsb_zrange. cbn [dict_get].
  replace (z <? mx + 1) with (z <=? mx) by (destruct (Z.leb_spec z mx); destruct (Z.ltb_spec z (mx + 1)); lia).
  destruct (_ && _); auto.
Qed.

(** X15: the directory scan of [DZImage.open] returns a non-negative
    [max_num] that bounds every level found and is one of them (or 0), a
    [min_num] that is [None] exactly when no level was found and otherwise the
    least level, and only levels read from numeric names. *)
Theorem scan_dirs_bounds ios names mx mn dirs :
  scan_dirs ios names = Ok (mx, mn, dirs) ->
  0 <= mx /\ (forall d, In d dirs -> d <= mx) /\ (mx = 0 \/ In mx dirs)
  /\ (mn = None <-> dirs = [])
  /\ (forall n, mn = Some n -> In n dirs /\ forall d, In d dirs -> n <= d)
  /\ (forall d, In d dirs ->
        exists s, In s names /\ is_dir_number s = true /\ ios s = Some d).
Proof.
  intros Hs.
  assert (Hq : scan_ok (mx, mn, dirs)).
  { refine (foldM_inv _ scan_ok _ _ _ Hs _ _).
    - cbn. repeat split; auto; try lia; intros; try contradiction; discriminate.
    - intros [[m0 n0] ds] d [[m1 n1] ds'] _ Hq Hst. cbn in Hq |- *.
      destruct Hq as (H0 & H1 & H2 & H3 & H4).
      cbv beta iota in Hst. unfold py_int in Hst.
      destruct (is_dir_number d); [|injection Hst as <- <- <-; auto].
      destruct (ios d) as [k|]; cbn [bind] in Hst; [|discriminate].
      injection Hst as <- <- <-.
      split; [zcases; lia|]. split.
      { intros x Hx. apply in_app_or in Hx. destruct Hx as [Hx|[<-|[]]];
          [specialize (H1 x Hx)|]; zcases; lia. }
      split.
      { zcases; [right; apply in_or_app; right; left; reflexivity|].
        destruct H2 as [->|H2]; [left; reflexivity|right; apply in_or_app; left; exact H2]. }
      split.
      { split; [destruct n0; [destruct (k <? z)|]; discriminate|].
        intros Hc. destruct ds; discriminate. }
      intros n Hn. destruct n0 as [n0|].
      + specialize (H4 n0 eq_refl). destruct H4 as [H4a H4b].
        destruct (Z.ltb_spec k n0); injection Hn as <-.
        * split; [apply in_or_app; right; left; reflexivity|].
          intros x Hx. apply in_app_or in Hx. destruct Hx as [Hx|[<-|[]]]; [|lia].
          specialize (H4b x Hx). lia.
        * split; [apply in_or_app; left; exact H4a|].
          intros x Hx. apply in_app_or in Hx. destruct Hx as [Hx|[<-|[]]]; auto.
      + injection Hn as <-. rewrite (proj1 H3 eq_refl). cbn [app In].
        split; [left; reflexivity|]. intros x [<-|[]]. lia. }
  cbn in Hq. destruct Hq as (H0 & H1 & H2 & H3 & H4).
  do 5 (split; [assumption|]).
  assert (Hm : forall acc r, foldM (fun '(max_num, min_num, dirs) d =>
           if is_dir_number d then
             dir_num <- py_int ios (PStr d) ;;
             let max_num := if dir_num >? max_num then dir_num else max_num in
             let min_num := match min_num with
                            | None => Some dir_num
                            | Some mn => if dir_num <? mn then Some dir_num else Some mn
                            end in
             Ok (max_num, min_num, dirs ++ [dir_num])
           else Ok (max_num, min_num, dirs)) names acc = Ok r ->
      forall d, In d (snd r) -> In d (snd acc)
        \/ exists s, In s names /\ is_dir_number s = true /\ ios s = Some d).
  { clear Hs H0 H1 H2 H3 H4. induction names as [|s l IH]; intros acc r Hf d Hd; cbn in Hf.
    - injection Hf as <-. left. exact Hd.
    - destruct acc as [[m0 n0] ds].
      cbv beta iota in Hf. unfold py_int in Hf.
      destruct (is_dir_number s) eqn:Ei.
      + destruct (ios s) as [k|] eqn:Ek; cbn [bind] in Hf; [|discriminate].
        destruct (IH _ _ Hf d Hd) as [Hx|(s' & Hs' & Hs'')].
        * cbn in Hx. apply in_app_or in Hx. destruct Hx as [Hx|[<-|[]]]; [left; exact Hx|].
          right. exists s. split; [left; reflexivity|]. auto.
        * right. exists s'. split; [right; exact Hs'|exact Hs''].
      + destruct (IH _ _ Hf d Hd) as [Hx|(s' & Hs' & Hs'')]; [left; exact Hx|].
        right. exists s'. split; [right; exact Hs'|exact Hs'']. }
  intros d Hd. destruct (Hm _ _ Hs d Hd) as [[]|Hx]. exact Hx.
Qed.

Lemma In_insert_desc x y l : In x (insert_desc y l) <-> x = y \/ In x l.
Proof.
  induction l as [|a l IH]; cbn; [intuition congruence|].
  destruct (y >=? a); cbn; [intuition congruence|]. rewrite IH. intuition congruence.
Qed.

Lemma In_sort_desc x l : In x (sort_desc l) <-> In x l.
Proof.
  induction l as [|a l IH]; cbn; [tauto|].
  rewrite In_insert_desc, IH. intuition.
Qed.

Lemma zoom_tables_keys l zw0 zh0 w h zw zh w' h' z :
  fold_left (fun '(zw, zh, w, h) d =>
               (dict_set d w zw, dict_set d h zh, py_ceil_div w 2, py_ceil_div h 2))
            l (zw0, zh0, w, h) = (zw, zh, w', h') ->
  (dict_get z zw = None <-> dict_get z zw0 = None /\ ~ In z l)
  /\ (dict_get z zh = None <-> dict_get z zh0 = None /\ ~ In z l).
Proof.
  revert zw0 zh0 w h. induction l as [|d l IH]; intros zw0 zh0 w h Hf; cbn in Hf.
  - injection Hf as <- <- _ _. cbn. tauto.
  - destruct (IH _ _ _ _ Hf) as [E1 E2]. rewrite E1, E2. unfold dict_set. cbn.
    destruct (Z.eqb_spec z d) as [->|Hne].
    + split; split; intros [Ha Hb]; try discriminate Ha; exfalso; apply Hb; left; reflexivity.
    + split; split; intros [Ha Hb]; (split; [exact Ha|]);
        [intros [Hc|Hc]; [congruence|auto] | intros Hc; apply Hb; right; exact Hc
        |intros [Hc|Hc]; [congruence|auto] | intros Hc; apply Hb; right; exact Hc].
Qed.

Lemma zoom_tables_get dirs w h z :
  (dict_get z (fst (zoom_tables dirs w h)) = None <-> ~ In z dirs)
  /\ (dict_get z (snd (zoom_tables dirs w h)) = None <-> ~ In z dirs).
Proof.
  unfold zoom_tables. destruct (fold_left _ _ _) as [[[zw zh] w'] h'] eqn:Ef.
  destruct (zoom_tables_keys _ _ _ _ _ _ _ _ _ z Ef) as [E1 E2]. cbn [fst snd].
  rewrite E1, E2, In_sort_desc. cbn [dict_get]. tauto.
Qed.

(** X16: [DZImage.open] lists every zoom from [max_num] down to 0, but only
    the zooms with a level directory get a size: the others are listed and
    yet raise [ZoomError] in [image_width_for_zoom]. *)
Theorem dz_open_levels ios ia sa names m mx mn dirs :
  dz_open ios ia sa (Some names) = Ok m -> scan_dirs ios names = Ok (mx, mn, dirs) ->
  dz_max_zoom m = mx /\ dz_min_zoom m = mn /\ dz_zooms m = range_down_to_0 mx
  /\ forall z, (dict_get z (dz_zoom_to_width m) = None <-> ~ In z dirs)
               /\ (dict_get z (dz_zoom_to_height m) = None <-> ~ In z dirs).
Proof.
  intros Ho Hs. unfold dz_open in Ho. crush_nb Ho.
  all: rewrite Hs in *.
  all: repeat match goal with E : Ok _ = Ok _ |- _ => injection E as <- <- <- end.
  all: injection Ho as <-; cbn.
  all: do 3 (split; [reflexivity|]); intros zz.
  all: match goal with E : zoom_tables ?l ?w ?h = _ |- _ =>
         pose proof (zoom_tables_get l w h zz) as G; rewrite E in G; exact G end.
Qed.

Lemma li_open_zoom_tables_witness :
  exists m, li_open Examples.li_meta_levels = Ok m /\ lm_width m = PInt 21 /\ lm_height m = PInt 10
  /\ lm_max_zoom m = 2
  /\ dict_get 0 (lm_zoom_to_width m) = Some 5 /\ dict_get 1 (lm_zoom_to_height m) = Some 5
  /\ dict_get 3 (lm_zoom_to_width m) = None.
Proof.
  assert (Hb : match li_open Examples.li_meta_levels with
               | Ok m => (lm_width m, lm_height m, lm_max_zoom m)
               | Err _ => (PInt 0, PInt 0, 0) end = (PInt 21, PInt 10, 2))
    by (vm_compute; reflexivity).
  destruct (li_open Examples.li_meta_levels) as [m|e] eqn:Eo; [|discriminate Hb].
  injection Hb as Hw Hh Hm. exists m. split; [reflexivity|].
  do 3 (split; [assumption|]).
  destruct (li_open_zoom_tables _ _ _ _ Eo Hw Hh) as [_ G].
  rewrite Hm in G.
  split; [rewrite (proj1 (G 0)); reflexivity|].
  split; [rewrite (proj2 (G 1)); reflexivity|].
  rewrite (proj1 (G 3)). reflexivity.
Defined.

Lemma scan_dirs_bounds_witness :
  scan_dirs Examples.dec_int ["2"; "tmp"; "0"; Examples.name_7nl; "10"]%string
    = Ok (10, Some 0, [2; 0; 7; 10])
  /\ 0 <= 10 /\ (forall d, In d [2; 0; 7; 10] -> d <= 10)
  /\ exists s, In s ["2"; "tmp"; "0"; Examples.name_7nl; "10"]%string
              /\ is_dir_number s = true /\ Examples.dec_int s = Some 7.
Proof.
  assert (E : scan_dirs Examples.dec_int ["2"; "tmp"; "0"; Examples.name_7nl; "10"]%string
              = Ok (10, Some 0, [2; 0; 7; 10])) by (vm_compute; reflexivity).
  split; [exact E|].
  destruct (scan_dirs_bounds _ _ _ _ _ E) as (H0 & H1 & _ & _ & _ & H5).
  split; [exact H0|]. split; [exact H1|].
  apply H5. right; right; left; reflexivity.
Defined.

Lemma dz_open_levels_witness :
  (dz_open Examples.dec_int (Some Examples.dzi_attrs) None (Some ["0"; "2"]%string)
     = Ok Examples.meta_no1
   /\ scan_dirs Examples.dec_int ["0"; "2"]%string = Ok (2, Some 0, [0; 2]))
  /\ dz_zooms Examples.meta_no1 = [2; 1; 0]
  /\ dict_get 1 (dz_zoom_to_width Examples.meta_no1) = None.
Proof.
  assert (Eo : dz_open Examples.dec_int (Some Examples.dzi_attrs) None (Some ["0"; "2"]%string)
               = Ok Examples.meta_no1) by (vm_compute; reflexivity).
  assert (Es : scan_dirs Examples.dec_int ["0"; "2"]%string = Ok (2, Some 0, [0; 2]))
    by (vm_compute; reflexivity).
  split; [split; assumption|].
  destruct (dz_open_levels _ _ _ _ _ _ _ _ Eo Es) as (_ & _ & Ez & G).
  split; [rewrite Ez; reflexivity|].
  apply (proj1 (G 1)). cbn. intros [H|[H|[]]]; discriminate H.
Defined.

(** ** [scroll] and [to_qimage] *)

Lemma scroll_to_extra im st tx ty b st' :
  scroll_to im st tx ty = Ok (b, st') -> extra_tiles st' = extra_tiles st.
Proof.
  intros Hs. unfold scroll_to in Hs.
  destruct (zoomed_image_width st); cbn [bind not_none] in Hs; [|discriminate].
  destruct (zoomed_image_height st); cbn [bind not_none] in Hs; [|discriminate].
  destruct (_ && _) in Hs; [injection Hs as _ <-; reflexivity|].
  crush_nb Hs.
  all: destruct (negb _) in Hs; [crush_nb Hs|]; injection Hs as _ <-; reflexivity.
Qed.

(** X17: from a consistent state, a [scroll] by [(dx, dy)] followed by a
    [scroll] by [(-dx, -dy)], both within the image, restores the position,
    the tile window and the place of the canvas under the viewport. *)
Theorem scroll_round_trip im st dx dy b1 st1 b2 st2 W H :
  window_ok im st ->
  zoomed_image_width st = Some W -> zoomed_image_height st = Some H ->
  0 <= viewport_x_on_fullimage st <= W - viewport_width st ->
  0 <= viewport_y_on_fullimage st <= H - viewport_height st ->
  0 <= viewport_x_on_fullimage st - dx <= W - viewport_width st ->
  0 <= viewport_y_on_fullimage st - dy <= H - viewport_height st ->
  scroll im st dx dy = Ok (b1, st1) -> scroll im st1 (- dx) (- dy) = Ok (b2, st2) ->
  viewport_x_on_fullimage st2 = viewport_x_on_fullimage st
  /\ viewport_y_on_fullimage st2 = viewport_y_on_fullimage st
  /\ current_window st2 = current_window st
  /\ canvas_offset_x im st2 = canvas_offset_x im st
  /\ canvas_offset_y im st2 = canvas_offset_y im st.
Proof.
  intros Hok HW HH Bx By Bx' By' S1 S2. unfold scroll in S1, S2.
  destruct (scroll_to_position _ _ _ _ _ _ _ _ HW HH S1) as (P1x & P1y & W1 & H1 & V1 & V1h).
  destruct (scroll_to_position _ _ _ _ _ _ _ _ W1 H1 S2) as (P2x & P2y & _ & _ & _ & _).
  unfold clip_pos in P1x, P1y.
  rewrite Z.min_l in P1x, P1y by lia. rewrite Z.max_r in P1x, P1y by lia.
  rewrite P1x, V1, Z.sub_opp_r, Z.sub_add in P2x. rewrite P1y, V1h, Z.sub_opp_r, Z.sub_add in P2y.
  unfold clip_pos in P2x, P2y.
  rewrite Z.min_l in P2x, P2y by lia. rewrite Z.max_r in P2x, P2y by lia.
  pose proof (scroll_to_window _ _ _ _ _ _ S1 Hok) as Ok1.
  pose proof (scroll_to_window _ _ _ _ _ _ S2 Ok1) as Ok2.
  destruct (scroll_to_fields _ _ _ _ _ _ S1) as (_ & _ & _ & _ & A1 & D1 & _).
  destruct (scroll_to_fields _ _ _ _ _ _ S2) as (_ & _ & _ & _ & A2 & D2 & _).
  pose proof (scroll_to_extra _ _ _ _ _ _ S1) as X1.
  pose proof (scroll_to_extra _ _ _ _ _ _ S2) as X2.
  destruct (scroll_to_offset _ _ _ _ _ _ _ _ Hok HW HH S1) as [O1x O1y].
  destruct (scroll_to_offset _ _ _ _ _ _ _ _ Ok1 W1 H1 S2) as [O2x O2y].
  replace (W <? viewport_width st) with false in O1x by (symmetry; apply Z.ltb_ge; lia).
  replace (H <? viewport_height st) with false in O1y by (symmetry; apply Z.ltb_ge; lia).
  rewrite V1 in O2x. rewrite V1h in O2y.
  replace (W <? viewport_width st) with false in O2x by (symmetry; apply Z.ltb_ge; lia).
  replace (H <? viewport_height st) with false in O2y by (symmetry; apply Z.ltb_ge; lia).
  rewrite andb_false_r in O1x, O1y, O2x, O2y.
  split; [exact P2x|]. split; [exact P2y|].
  split; [|lia].
  unfold window_ok in Hok, Ok2. rewrite Hok, Ok2. unfold window_of.
  rewrite P2x, P2y, A2, A1, D2, D1, X2, X1. reflexivity.
Qed.

Lemma load_image_layout im st c st' :
  viewport_width st <> 0 -> viewport_height st <> 0 ->
  load_image im st c = Ok st' ->
  0 <= viewport_x_on_fullimage st' /\ 0 <= viewport_y_on_fullimage st'
  /\ tile_xstart st' = x_to_tile im (viewport_x_on_fullimage st') - extra_tiles st
  /\ tile_ystart st' = y_to_tile im (viewport_y_on_fullimage st') - extra_tiles st
  /\ viewport_x st' = viewport_x_on_fullimage st' - tile_start_x im (tile_xstart st') false
  /\ viewport_y st' = viewport_y_on_fullimage st' - tile_start_y im (tile_ystart st') false
  /\ canvas_width st'
     = (py_ceil_div (viewport_width st) (tile_width im) + extra_tiles st * 2) * tile_width im
  /\ canvas_height st'
     = (py_ceil_div (viewport_height st) (tile_height im) + extra_tiles st * 2) * tile_height im
  /\ viewport_width st' = viewport_width st /\ viewport_height st' = viewport_height st.
Proof.
  intros Hw Hh Hl. unfold load_image in Hl.
  replace ((viewport_width st =? 0) || (viewport_height st =? 0)) with false in Hl
    by (symmetry; apply orb_false_iff; split; apply Z.eqb_neq; assumption).
  crush_nb Hl. all: injection Hl as <-; cbn; repeat split; try reflexivity; zcases; lia.
Qed.

Lemma ceil_div_cover v t : 0 < t -> v <= py_ceil_div v t * t.
Proof.
  intros Ht. unfold py_ceil_div.
  pose proof (Z.div_mod (- v) t ltac:(lia)). pose proof (Z.mod_pos_bound (- v) t Ht). nia.
Qed.

(** X18: after a [load_image] of a Deep Zoom image, the rectangle
    [to_qimage] returns starts at the position within its tile plus
    [extra_tiles] tiles plus the overlap (unless the window starts at tile
    0); with at least [(tile_size - 1 + overlap) / tile_size] extra tiles it
    lies inside the canvas and has the viewport size. *)
Theorem load_image_rect_in_canvas m rd st c st' q r :
  0 < dz_tile_width m < 10000 -> 0 <= dz_overlap m ->
  0 < viewport_width st -> 0 < viewport_height st ->
  load_image (dz_image m rd) st c = Ok st' -> pixels st' <> None ->
  to_qimage (dz_image m rd) st' = Ok (q, r) ->
  let T := dz_tile_width m in
  let e := extra_tiles st in
  qr_x r = viewport_x_on_fullimage st' mod T + T * e
           + (if tile_xstart st' =? 0 then 0 else dz_overlap m)
  /\ qr_y r = viewport_y_on_fullimage st' mod T + T * e
           + (if tile_ystart st' =? 0 then 0 else dz_overlap m)
  /\ (0 <= e -> T - 1 + dz_overlap m <= T * e ->
      0 <= qr_x r /\ qr_x r + qr_w r <= canvas_width st'
      /\ 0 <= qr_y r /\ qr_y r + qr_h r <= canvas_height st'
      /\ qr_w r = viewport_width st /\ qr_h r = viewport_height st).
Proof.
  intros HT Hov Hw Hh Hl Hp Hq. cbv zeta.
  destruct (load_image_layout (dz_image m rd) st c st' ltac:(lia) ltac:(lia) Hl)
    as (X0 & Y0 & Xs & Ys & Vx & Vy & Cw & Ch & Ww & Wh).
  assert (Hr : qr_x r = viewport_x st' /\ qr_y r = viewport_y st'
               /\ qr_w r = Z.min (viewport_width st') (canvas_width st')
               /\ qr_h r = Z.min (viewport_height st') (canvas_height st')).
  { unfold to_qimage in Hq. destruct (pixels st'); [|congruence].
    cbv zeta in Hq.
    repeat match type of Hq with context [if ?b then _ else _] => destruct b end;
      try discriminate; injection Hq as _ <-; cbn; auto. }
  destruct Hr as (Rx & Ry & Rw & Rh).
  cbn [dz_image tile_width tile_height tile_start_x tile_start_y] in *.
  unfold x_to_tile, y_to_tile in Xs, Ys. cbn [dz_image tile_width tile_height] in Xs, Ys.
  rewrite quot_fudge in Xs, Ys by lia.
  unfold dz_tile_start in Vx, Vy. cbn [andb] in Vx, Vy.
  pose proof (Z.div_mod (viewport_x_on_fullimage st') (dz_tile_width m) ltac:(lia)).
  pose proof (Z.div_mod (viewport_y_on_fullimage st') (dz_tile_width m) ltac:(lia)).
  pose proof (Z.mod_pos_bound (viewport_x_on_fullimage st') (dz_tile_width m) ltac:(lia)).
  pose proof (Z.mod_pos_bound (viewport_y_on_fullimage st') (dz_tile_width m) ltac:(lia)).
  pose proof (ceil_div_cover (viewport_width st) _ (proj1 HT)).
  pose proof (ceil_div_cover (viewport_height st) _ (proj1 HT)).
  rewrite Rx, Ry, Vx, Vy, Xs, Ys.
  split; [zcases; lia|]. split; [zcases; lia|].
  intros He Hc. rewrite Rw, Rh, Cw, Ch, Ww, Wh.
  zcases; nia.
Qed.

Lemma load_image_rect_in_canvas_witness :
  exists st' q r,
    load_image Examples.image (init_state 1 2 6 5) (Some (13, 9)) = Ok st'
    /\ pixels st' <> None /\ to_qimage Examples.image st' = Ok (q, r)
    /\ tile_xstart st' = 1 /\ qr_x r = 2 + 4 + 1 /\ qr_x r + qr_w r <= canvas_width st'.
Proof.
  assert (Ho : dz_overlap Examples.meta = 1) by (vm_compute; reflexivity).
  assert (Ht : dz_tile_width Examples.meta = 4) by (vm_compute; reflexivity).
  assert (Hb : match load_image Examples.image (init_state 1 2 6 5) (Some (13, 9)) with
               | Ok s => (tile_xstart s =? 1) && (viewport_x_on_fullimage s =? 10)
                         && match pixels s with Some _ => true | None => false end
                         && match to_qimage Examples.image s with Ok _ => true | Err _ => false end
               | Err _ => false end = true) by (vm_compute; reflexivity).
  destruct (load_image Examples.image (init_state 1 2 6 5) (Some (13, 9))) as [st'|] eqn:El;
    [|discriminate Hb].
  destruct (to_qimage Examples.image st') as [[q r]|] eqn:Eq;
    [|rewrite !andb_true_iff in Hb; destruct Hb as [_ Hb]; discriminate Hb].
  rewrite !andb_true_iff, !Z.eqb_eq in Hb. destruct Hb as [[[Hx Hv] Hp] _].
  assert (Hp' : pixels st' <> None) by (destruct (pixels st'); discriminate).
  unfold Examples.image in El, Eq.
  destruct (load_image_rect_in_canvas Examples.meta Examples.imread (init_state 1 2 6 5)
              (Some (13, 9)) st' q r) as (Rx & _ & Rc);
    [rewrite Ht; lia | rewrite Ho; lia | cbn; lia | cbn; lia | exact El | exact Hp' | exact Eq |].
  exists st', q, r. unfold Examples.image. repeat split; auto.
  - rewrite Rx, Hx, Hv, Ht, Ho. reflexivity.
  - apply Rc; cbn; rewrite ?Ht, ?Ho; lia.
Defined.

Lemma scroll_round_trip_witness :
  exists b1 st1 b2 st2,
    window_ok Examples.image (Examples.state_at 2)
    /\ zoomed_image_width (Examples.state_at 2) = Some 20
    /\ zoomed_image_height (Examples.state_at 2) = Some 12
    /\ scroll Examples.image (Examples.state_at 2) (-4) (-3) = Ok (b1, st1)
    /\ scroll Examples.image st1 4 3 = Ok (b2, st2)
    /\ viewport_x_on_fullimage st1 = 4
    /\ viewport_x_on_fullimage st2 = viewport_x_on_fullimage (Examples.state_at 2)
    /\ current_window st2 = current_window (Examples.state_at 2)
    /\ canvas_offset_x Examples.image st2 = canvas_offset_x Examples.image (Examples.state_at 2).
Proof.
  assert (Hok : window_ok Examples.image (Examples.state_at 2)) by (vm_compute; reflexivity).
  assert (HW : zoomed_image_width (Examples.state_at 2) = Some 20) by (vm_compute; reflexivity).
  assert (HH : zoomed_image_height (Examples.state_at 2) = Some 12) by (vm_compute; reflexivity).
  assert (Px : viewport_x_on_fullimage (Examples.state_at 2) = 0) by (vm_compute; reflexivity).
  assert (Py : viewport_y_on_fullimage (Examples.state_at 2) = 0) by (vm_compute; reflexivity).
  assert (Vw : viewport_width (Examples.state_at 2) = 6) by (vm_compute; reflexivity).
  assert (Vh : viewport_height (Examples.state_at 2) = 5) by (vm_compute; reflexivity).
  assert (Hb : match scroll Examples.image (Examples.state_at 2) (-4) (-3) with
               | Ok (_, s1) =>
                   (viewport_x_on_fullimage s1 =? 4)
                   && match scroll Examples.image s1 4 3 with Ok _ => true | Err _ => false end
               | Err _ => false end = true) by (vm_compute; reflexivity).
  destruct (scroll Examples.image (Examples.state_at 2) (-4) (-3)) as [[b1 st1]|] eqn:S1;
    [|discriminate Hb].
  destruct (scroll Examples.image st1 4 3) as [[b2 st2]|] eqn:S2;
    [|rewrite andb_false_r in Hb; discriminate Hb].
  apply andb_true_iff in Hb. destruct Hb as [Hx _]. apply Z.eqb_eq in Hx.
  destruct (scroll_round_trip Examples.image (Examples.state_at 2) (-4) (-3) b1 st1 b2 st2 20 12
              Hok HW HH ltac:(lia) ltac:(lia) ltac:(lia) ltac:(lia) S1 S2)
    as (R1 & _ & R3 & R4 & _).
  exists b1, st1, b2, st2.
  exact (conj Hok (conj HW (conj HH (conj eq_refl (conj S2 (conj Hx (conj R1 (conj R3 R4)))))))).
Defined.

(** ** [load_image] twice *)

Lemma load_image_frame im st c st' :
  viewport_width st <> 0 -> viewport_height st <> 0 ->
  load_image im st c = Ok st' ->
  extra_tiles st' = extra_tiles st
  /\ tile_xend st' = tile_xstart st' + (py_ceil_div (viewport_width st) (tile_width im) + extra_tiles st * 2)
  /\ tile_yend st' = tile_ystart st' + (py_ceil_div (viewport_height st) (tile_height im) + extra_tiles st * 2).
Proof.
  intros Hw Hh Hl. unfold load_image in Hl.
  replace ((viewport_width st =? 0) || (viewport_height st =? 0)) with false in Hl
    by (symmetry; apply orb_false_iff; split; apply Z.eqb_neq; assumption).
  crush_nb Hl. all: injection Hl as <-; cbn; repeat split; reflexivity.
Qed.

Lemma clip_pos_idem t s v : 0 <= v -> clip_pos (clip_pos t s v) s v = clip_pos t s v.
Proof. intros Hv. unfold clip_pos. lia. Qed.

(** X19: at a fixed zoom, a second [load_image] without a centre changes
    neither the position, the place of the viewport in the canvas, the tile
    window nor the canvas size: the clamping of the first call is already
    idempotent. *)
Theorem load_image_idempotent im st c st1 st2 W H :
  viewport_width st <> 0 -> viewport_height st <> 0 -> zoom st <> -1 ->
  0 <= viewport_width st -> 0 <= viewport_height st ->
  image_width_for_zoom im (zoom st) = Ok W -> image_height_for_zoom im (zoom st) = Ok H ->
  load_image im st c = Ok st1 -> load_image im st1 None = Ok st2 ->
  viewport_x_on_fullimage st2 = viewport_x_on_fullimage st1
  /\ viewport_y_on_fullimage st2 = viewport_y_on_fullimage st1
  /\ viewport_x st2 = viewport_x st1 /\ viewport_y st2 = viewport_y st1
  /\ current_window st2 = current_window st1
  /\ zoom st2 = zoom st1 /\ canvas_width st2 = canvas_width st1
  /\ canvas_height st2 = canvas_height st1.
Proof.
  intros Hw Hh Hz Hw0 Hh0 HW HH L1 L2.
  destruct (load_image_position _ _ _ _ _ _ Hw Hh Hz HW HH L1)
    as (P1x & P1y & W1 & H1 & V1 & V1h & Z1).
  assert (Hw1 : viewport_width st1 <> 0) by congruence.
  assert (Hh1 : viewport_height st1 <> 0) by congruence.
  assert (Hz1 : zoom st1 <> -1) by congruence.
  rewrite <- Z1 in HW, HH.
  destruct (load_image_position _ _ _ _ _ _ Hw1 Hh1 Hz1 HW HH L2)
    as (P2x & P2y & _ & _ & V2 & V2h & Z2).
  cbn [load_target fst snd] in P1x, P1y, P2x, P2y.
  rewrite P1x, V1, clip_pos_idem in P2x by lia. rewrite <- P1x in P2x.
  rewrite P1y, V1h, clip_pos_idem in P2y by lia. rewrite <- P1y in P2y.
  destruct (load_image_layout _ _ _ _ Hw Hh L1) as (_ & _ & A1 & B1 & C1 & D1 & E1 & F1 & _).
  destruct (load_image_layout _ _ _ _ Hw1 Hh1 L2) as (_ & _ & A2 & B2 & C2 & D2 & E2 & F2 & _).
  destruct (load_image_frame _ _ _ _ Hw Hh L1) as (X1 & G1 & K1).
  destruct (load_image_frame _ _ _ _ Hw1 Hh1 L2) as (X2 & G2 & K2).
  rewrite V1, V1h, X1 in *.
  assert (Ts : tile_xstart st2 = tile_xstart st1) by (rewrite A1, A2, P2x; reflexivity).
  assert (Ty : tile_ystart st2 = tile_ystart st1) by (rewrite B1, B2, P2y; reflexivity).
  unfold current_window.
  rewrite P2x, P2y, Z2, G1, G2, K1, K2, Ts, Ty, E1, E2, F1, F2, C1, C2, D1, D2, P2x, P2y, Ts, Ty.
  repeat split; reflexivity.
Qed.

Lemma load_image_idempotent_witness :
  exists st1 st2,
    image_width_for_zoom Examples.image 2 = Ok 20
    /\ image_height_for_zoom Examples.image 2 = Ok 12
    /\ load_image Examples.image (init_state 1 2 6 5) (Some (30, 30)) = Ok st1
    /\ load_image Examples.image st1 None = Ok st2
    /\ viewport_x_on_fullimage st1 = 14
    /\ viewport_x_on_fullimage st2 = viewport_x_on_fullimage st1
    /\ current_window st2 = current_window st1.
Proof.
  assert (HW : image_width_for_zoom Examples.image 2 = Ok 20) by (vm_compute; reflexivity).
  assert (HH : image_height_for_zoom Examples.image 2 = Ok 12) by (vm_compute; reflexivity).
  assert (Hb : match load_image Examples.image (init_state 1 2 6 5) (Some (30, 30)) with
               | Ok s1 => (viewport_x_on_fullimage s1 =? 14)
                          && match load_image Examples.image s1 None with
                             | Ok _ => true | Err _ => false end
               | Err _ => false end = true) by (vm_compute; reflexivity).
  destruct (load_image Examples.image (init_state 1 2 6 5) (Some (30, 30))) as [st1|] eqn:L1;
    [|discriminate Hb].
  destruct (load_image Examples.image st1 None) as [st2|] eqn:L2;
    [|rewrite andb_false_r in Hb; discriminate Hb].
  apply andb_true_iff in Hb. destruct Hb as [Hx _]. apply Z.eqb_eq in Hx.
  exists st1, st2.
  split; [exact HW|]. split; [exact HH|]. split; [reflexivity|]. split; [exact L2|].
  split; [exact Hx|].
  destruct (load_image_idempotent Examples.image (init_state 1 2 6 5) (Some (30, 30)) st1 st2 20 12
              ltac:(cbn; lia) ltac:(cbn; lia) ltac:(cbn; lia) ltac:(cbn; lia) ltac:(cbn; lia)
              HW HH L1 L2) as (R1 & _ & _ & _ & R5 & _).
  split; assumption.
Defined.
